(** * CreatorFeedback: a verification model of [src/index.tsx]

    The development embeds the annotation logic of the review application:
    the geometry of normalized points, the whiteboard capture handlers, the
    in-memory comment store ([MOCK_DB] and [DatabaseService]), the polling
    subscriptions built on [setInterval], the scrubber marker positions and
    the guard logic of [AIService.summarizeFeedback].

    Modelling conventions.
    - Coordinates, rect and canvas sizes and stroke widths are IEEE binary64
      numbers, primitive [float]s, computed with the operations the code
      uses, rounding, infinities and [NaN] included.
    - Video times and durations are exact rationals [Q]: the store only
      compares them, and the statements about the marker quotient are
      read on finite values.  [Date.now()] is an integer number of
      milliseconds, a [Z], and every call is an input of its own.
    - A JavaScript string is a [string]; its characters stand for the code
      units 0..255.
    - React state is explicit.  [Review] composes each handler with the
      re-render that follows it, which is how the discrete events of the
      page (clicks, key presses, press and release) are processed.
      [Batched] keeps apart what the pointer handlers close over (the
      values of the last render) and what their setters have queued, with
      the re-render as a step of its own, so that pointer events handled
      before a re-render are covered too.
    - [MOCK_DB.comments] is a [gmap] from project ids to arrays of comments.
      Project ids are never names of [Object.prototype] properties. *)

From Stdlib Require Import Ascii String QArith Qabs Qround Lqa Sorted Permutation Floats.
From stdpp Require Import gmap strings list pretty.

#[local] Open Scope Z_scope.
#[local] Set Warnings "-inexact-float".

(** ** Types and schema *)

(** [interface Point { x: number; y: number }] *)
Record Point : Type := mkPoint { px : float; py : float }.

(** [interface Stroke { color; width; points }] *)
Record Stroke : Type := mkStroke {
  color : string;
  width : float;
  points : list Point
}.

(** [interface Comment] *)
Record Comment : Type := mkComment {
  id : string;
  authorId : string;
  authorName : string;
  text : string;
  timestamp : Q;
  resolved : bool;
  drawingData : option (list Stroke);
  createdAt : Z
}.

(** [Omit<Comment, 'id' | 'createdAt'>], the argument of [addComment]. *)
Record CommentDraft : Type := mkDraft {
  d_authorId : string;
  d_authorName : string;
  d_text : string;
  d_timestamp : Q;
  d_resolved : bool;
  d_drawingData : option (list Stroke)
}.

Inductive ProjectStatus : Type := processing | ready.

(** [interface Project] *)
Record Project : Type := mkProject {
  p_id : string;
  p_publicId : string;
  p_editorId : string;
  p_title : string;
  p_videoUrl : string;
  p_status : ProjectStatus;
  p_duration : Q;
  p_createdAt : Z
}.

(** ** Geometry: [getNormPoint] and the scaling done by [drawStroke] *)

Module Geometry.

(** The part of a [DOMRect] that [getNormPoint] reads. *)
Record DOMRect : Type := mkRect {
  left : float; top : float; rwidth : float; rheight : float
}.

(** The part of a [React.MouseEvent] that [getNormPoint] reads. *)
Record MouseEvent : Type := mkMouse { clientX : float; clientY : float }.

(** [getNormPoint]: [(clientX - rect.left) / rect.width] and the same for y. *)
Definition getNormPoint (rect : DOMRect) (e : MouseEvent) : Point :=
  {| px := ((clientX e - left rect) / rwidth rect)%float;
     py := ((clientY e - top rect) / rheight rect)%float |}.

(** [drawStroke] maps a point to canvas coordinates with
    [p.x * width, p.y * height]; the canvas origin is its own corner. *)
Definition denormalize (p : Point) (w h : float) : float * float :=
  ((px p * w)%float, (py p * h)%float).

End Geometry.

(** ** Timeline: the scrubber markers of [ReviewPage] *)

Module Timeline.

(** [duration || 1]: zero is falsy, every other rational is kept. *)
Definition orOne (duration : Q) : Q :=
  if Qeq_bool duration 0 then 1%Q else duration.

(** The fraction [c.timestamp / (duration || 1)] of the marker style. *)
Definition markerPosition (c : Comment) (duration : Q) : Q :=
  (timestamp c / orOne duration)%Q.

(** [left: `${(c.timestamp / (duration || 1)) * 100}%`], the number printed. *)
Definition markerLeft (c : Comment) (duration : Q) : Q :=
  (markerPosition c duration * 100)%Q.

(** [comments.map(c => <div style={{left: ...}} />)] *)
Definition markerPositions (comments : list Comment) (duration : Q) : list Q :=
  map (fun c => markerPosition c duration) comments.

End Timeline.

(** ** The mock data store and [DatabaseService] *)

Module Store.

(** How an [async] service function settles.  The error names are the ones
    the design documents use; the service code has no [throw]. *)
Inductive StoreError : Type := ValidationError | NotFoundError.

Inductive Outcome (A : Type) : Type :=
  | Fulfilled (a : A)
  | Rejected (e : StoreError).
Arguments Fulfilled {A} a.
Arguments Rejected {A} e.

(** [MOCK_DB]: [projects] keeps the insertion order that [Object.values]
    enumerates; [comments] is only read and written by key. *)
Record DB : Type := mkDB {
  projects : list (string * Project);
  comments : gmap string (list Comment)
}.

(** [obj[key] = value] on an insertion-ordered object. *)
Fixpoint assign {V : Type} (key : string) (v : V) (o : list (string * V))
  : list (string * V) :=
  match o with
  | [] => [(key, v)]
  | (k, w) :: rest =>
      if String.eqb k key then (k, v) :: rest else (k, w) :: assign key v rest
  end.

(** [Object.values(obj)] *)
Definition values {V : Type} (o : list (string * V)) : list V := map snd o.

(** The comparator [(a, b) => a.timestamp - b.timestamp]. *)
Definition byTimestamp (a b : Comment) : Q := (timestamp a - timestamp b)%Q.

(** [Array.prototype.sort] is a stable sort: an element moves in front of
    [y] only when the comparator puts it strictly before or level with [y]
    while it already preceded [y]. *)
Fixpoint sortInsert (cmp : Comment -> Comment -> Q) (x : Comment)
  (sorted : list Comment) : list Comment :=
  match sorted with
  | [] => [x]
  | y :: rest =>
      if Qle_bool (cmp x y) 0 then x :: y :: rest
      else y :: sortInsert cmp x rest
  end.

Definition sort (cmp : Comment -> Comment -> Q) (l : list Comment)
  : list Comment :=
  foldr (sortInsert cmp) [] l.

(** [MOCK_DB.comments[projectId] || []] *)
Definition commentsOf (projectId : string) (db : DB) : list Comment :=
  default [] (comments db !! projectId).

(** The array [subscribeToComments]'s [load] hands to the callback:
    [[...comments].sort((a, b) => a.timestamp - b.timestamp)]. *)
Definition loadComments (projectId : string) (db : DB) : list Comment :=
  sort byTimestamp (commentsOf projectId db).

(** The array [subscribeToProjects]'s [load] hands to the callback. *)
Definition loadProjects (userId : string) (db : DB) : list Project :=
  List.filter
    (fun p => String.eqb (p_editorId p) userId || String.eqb (p_id p) "proj_1")
    (values (projects db)).

(** [createProject]; [now1], [now2] are the two readings of [Date.now()]
    and [rnd] the string made from [Math.random()]. *)
Definition createProject (editorId title videoUrl : string)
  (status : ProjectStatus) (duration : Q) (now1 now2 : Z) (rnd : string)
  (db : DB) : Outcome (DB * Project) :=
  let pid := ("proj_" +:+ pretty now1)%string in
  let newProject :=
    {| p_id := pid; p_publicId := rnd; p_editorId := editorId;
       p_title := title; p_videoUrl := videoUrl; p_status := status;
       p_duration := duration; p_createdAt := now2 |} in
  Fulfilled
    ({| projects := assign pid newProject (projects db);
        comments := <[pid := []]> (comments db) |}, newProject).

(** The object [{...comment, id: `c_${Date.now()}`, createdAt: Date.now()}]. *)
Definition newComment (draft : CommentDraft) (now1 now2 : Z) : Comment :=
  {| id := ("c_" +:+ pretty now1)%string;
     authorId := d_authorId draft;
     authorName := d_authorName draft;
     text := d_text draft;
     timestamp := d_timestamp draft;
     resolved := d_resolved draft;
     drawingData := d_drawingData draft;
     createdAt := now2 |}.

(** [addComment]: builds the comment, creates the project's array when it
    is missing, pushes, returns the comment. *)
Definition addComment (projectId : string) (draft : CommentDraft)
  (now1 now2 : Z) (db : DB) : Outcome (DB * Comment) :=
  let c := newComment draft now1 now2 in
  Fulfilled
    ({| projects := projects db;
        comments := <[projectId := commentsOf projectId db ++ [c]]> (comments db) |},
     c).

(** [comments.findIndex(c => c.id === commentId)]; [None] stands for -1. *)
Fixpoint findIndex (commentId : string) (cs : list Comment) : option nat :=
  match cs with
  | [] => None
  | c :: rest =>
      if String.eqb (id c) commentId then Some 0%nat
      else S <$> findIndex commentId rest
  end.

(** The assignment [c.resolved = resolved] on one comment object. *)
Definition setResolvedField (r : bool) (c : Comment) : Comment :=
  {| id := id c; authorId := authorId c; authorName := authorName c;
     text := text c; timestamp := timestamp c; resolved := r;
     drawingData := drawingData c; createdAt := createdAt c |}.

(** [resolveComment]: both [if]s fall through silently. *)
Definition resolveComment (projectId commentId : string) (r : bool) (db : DB)
  : Outcome DB :=
  Fulfilled
    match comments db !! projectId with
    | Some cs =>
        match findIndex commentId cs with
        | Some idx =>
            {| projects := projects db;
               comments := <[projectId := alter (setResolvedField r) idx cs]> (comments db) |}
        | None => db
        end
    | None => db
    end.

(** The database a settled call leaves behind: a rejected call would leave
    the one it started from. *)
Definition dbAfter {A : Type} (before : DB) (o : Outcome (DB * A)) : DB :=
  match o with
  | Fulfilled (db', _) => db'
  | Rejected _ => before
  end.

(** The seed comment of [MOCK_DB]; [t0] is [Date.now()] at module load. *)
Definition seedComment (t0 : Z) : Comment :=
  {| id := "c1"; authorId := "client_guest"; authorName := "Client A";
     text := "Can we make the grass greener here?";
     timestamp := 5.2%Q; resolved := false;
     drawingData :=
       Some [ {| color := "#ef4444"; width := 4%float;
                 points := [ mkPoint 0.2 0.4; mkPoint 0.3 0.4; mkPoint 0.3 0.5 ] |} ];
     createdAt := t0 - 50000 |}.

Definition seedProject (t0 : Z) : Project :=
  {| p_id := "proj_1"; p_publicId := "review-demo"; p_editorId := "anon_editor";
     p_title := "Demo Video (Big Buck Bunny)";
     p_videoUrl := "https://commondatastorage.googleapis.com/gtv-videos-bucket/sample/BigBuckBunny.mp4";
     p_status := ready; p_duration := 596%Q; p_createdAt := t0 - 10000000 |}.

Definition MOCK_DB (t0 : Z) : DB :=
  {| projects := [("proj_1"%string, seedProject t0)];
     comments := {[ "proj_1"%string := [seedComment t0] ]} |}.

(** Two comment objects that agree on everything but [resolved]. *)
Definition sameButResolved (c c' : Comment) : Prop :=
  id c' = id c /\ authorId c' = authorId c /\ authorName c' = authorName c /\
  text c' = text c /\ timestamp c' = timestamp c /\
  drawingData c' = drawingData c /\ createdAt c' = createdAt c.

(** *** Orders on comments used to describe [loadComments] *)

(** Timestamp ascending. *)
Definition tsLe (a b : Comment) : Prop := (timestamp a <= timestamp b)%Q.

(** Timestamp ascending, ties by [createdAt] ascending. *)
Definition tsCreatedLe (a b : Comment) : Prop :=
  (timestamp a < timestamp b)%Q \/
  ((timestamp a == timestamp b)%Q /\ createdAt a <= createdAt b).

(** The comments of a list that sit at video time [t], in list order. *)
Definition atTime (t : Q) (l : list Comment) : list Comment :=
  List.filter (fun c => Qeq_bool (timestamp c) t) l.

End Store.

(** ** Polling subscriptions: [setInterval], [clearInterval] and the event loop *)

Module Sync.
Import Store.

(** What a callback receives. *)
Inductive Payload : Type :=
  | ProjectsPayload (ps : list Project)
  | CommentsPayload (cs : list Comment).

(** The two [load] closures; [cb] names the subscriber's callback. *)
Inductive Handler : Type :=
  | LoadProjects (userId : string) (cb : nat)
  | LoadComments (projectId : string) (cb : nat).

Definition callbackOf (h : Handler) : nat :=
  match h with
  | LoadProjects _ cb => cb
  | LoadComments _ cb => cb
  end.

(** An active interval timer: its handler and its period in milliseconds. *)
Record Timer : Type := mkTimer { handler : Handler; period : Z }.

(** The runtime: the database, the map of active timers, the next timer
    handle (handles are handed out in increasing order and never reused),
    and the trace of callback invocations, oldest first. *)
Record World : Type := mkWorld {
  db : DB;
  timers : gmap nat Timer;
  nextTimer : nat;
  log : list (nat * Payload)
}.

(** Running a [load] closure: read the database, invoke the callback. *)
Definition payloadOf (h : Handler) (d : DB) : Payload :=
  match h with
  | LoadProjects userId _ => ProjectsPayload (loadProjects userId d)
  | LoadComments projectId _ => CommentsPayload (loadComments projectId d)
  end.

Definition runHandler (h : Handler) (w : World) : World :=
  {| db := db w; timers := timers w; nextTimer := nextTimer w;
     log := log w ++ [(callbackOf h, payloadOf h (db w))] |}.

(** [setInterval(load, ms)] returns the new handle. *)
Definition setInterval (h : Handler) (ms : Z) (w : World) : World * nat :=
  ({| db := db w;
      timers := <[nextTimer w := mkTimer h ms]> (timers w);
      nextTimer := S (nextTimer w);
      log := log w |}, nextTimer w).

(** [clearInterval(handle)]: an unknown handle is ignored. *)
Definition clearInterval (handle : nat) (w : World) : World :=
  {| db := db w; timers := delete handle (timers w);
     nextTimer := nextTimer w; log := log w |}.

(** The timer task of [handle] runs: a cleared timer has no task. *)
Definition tick (handle : nat) (w : World) : World :=
  match timers w !! handle with
  | Some t => runHandler (handler t) w
  | None => w
  end.

(** [subscribeToProjects]: [load(); setInterval(load, 2000)]; the result's
    second component is the handle the returned closure clears. *)
Definition subscribeToProjects (userId : string) (cb : nat) (w : World)
  : World * nat :=
  setInterval (LoadProjects userId cb) 2000 (runHandler (LoadProjects userId cb) w).

(** [subscribeToComments]: [load(); setInterval(load, 1000)]. *)
Definition subscribeToComments (projectId : string) (cb : nat) (w : World)
  : World * nat :=
  setInterval (LoadComments projectId cb) 1000 (runHandler (LoadComments projectId cb) w).

(** The closure [() => clearInterval(interval)] returned by a subscribe. *)
Definition unsubscribe (handle : nat) (w : World) : World :=
  clearInterval handle w.

Definition withDb (d : DB) (w : World) : World :=
  {| db := d; timers := timers w; nextTimer := nextTimer w; log := log w |}.

(** What can happen between two turns of the event loop. *)
Inductive Event : Type :=
  | Tick (handle : nat)
  | Unsubscribe (handle : nat)
  | SubscribeProjects (userId : string) (cb : nat)
  | SubscribeComments (projectId : string) (cb : nat)
  | AddComment (projectId : string) (draft : CommentDraft) (now1 now2 : Z)
  | ResolveComment (projectId commentId : string) (r : bool)
  | CreateProject (editorId title videoUrl : string) (status : ProjectStatus)
      (duration : Q) (now1 now2 : Z) (rnd : string).

Definition step (w : World) (ev : Event) : World :=
  match ev with
  | Tick handle => tick handle w
  | Unsubscribe handle => unsubscribe handle w
  | SubscribeProjects userId cb => fst (subscribeToProjects userId cb w)
  | SubscribeComments projectId cb => fst (subscribeToComments projectId cb w)
  | AddComment projectId draft now1 now2 =>
      withDb (dbAfter (db w) (addComment projectId draft now1 now2 (db w))) w
  | ResolveComment projectId commentId r =>
      match resolveComment projectId commentId r (db w) with
      | Fulfilled d => withDb d w
      | Rejected _ => w
      end
  | CreateProject editorId title videoUrl status duration now1 now2 rnd =>
      withDb (dbAfter (db w)
                (createProject editorId title videoUrl status duration now1 now2 rnd (db w))) w
  end.

Definition run (w : World) (evs : list Event) : World := foldl step w evs.







Definition initial (d : DB) : World :=
  {| db := d; timers := ∅; nextTimer := 1%nat; log := [] |}.

End Sync.

(** ** [WhiteboardOverlay]: capture handlers and stroke rendering *)

Module Whiteboard.
Import Geometry.

(** The stroke literal of [handleMouseUp]. *)
Definition inkStroke (pts : list Point) : Stroke :=
  {| color := "#ef4444"; width := 4%float; points := pts |}.

(** [handleMouseDown]; the result is the next [currentPoints]. *)
Definition handleMouseDown (isDrawing : bool) (rect : DOMRect) (e : MouseEvent)
  (currentPoints : list Point) : list Point :=
  if negb isDrawing then currentPoints
  else [getNormPoint rect e].

(** [handleMouseMove] *)
Definition handleMouseMove (isDrawing : bool) (rect : DOMRect) (e : MouseEvent)
  (currentPoints : list Point) : list Point :=
  if negb isDrawing || (length currentPoints =? 0)%nat then currentPoints
  else currentPoints ++ [getNormPoint rect e].

(** [handleMouseUp], also bound to [onMouseLeave]; the second component is
    the argument of the [onDrawEnd] call when there is one. *)
Definition handleMouseUp (isDrawing : bool) (currentPoints : list Point)
  : list Point * option Stroke :=
  if negb isDrawing || (length currentPoints =? 0)%nat then (currentPoints, None)
  else ([], Some (inkStroke currentPoints)).

(** The canvas calls of [drawStroke]. *)
Inductive CanvasOp : Type :=
  | BeginPath
  | StrokeStyle (c : string)
  | LineWidth (w : float)
  | MoveTo (x y : float)
  | LineTo (x y : float)
  | StrokePath.

(** [drawStroke] for a canvas of [w] by [h] pixels. *)
Definition drawStroke (w h : float) (s : Stroke) : list CanvasOp :=
  match points s with
  | p0 :: (_ :: _) as rest =>
      [BeginPath; StrokeStyle (color s); LineWidth (width s);
       MoveTo (fst (denormalize p0 w h)) (snd (denormalize p0 w h))]
      ++ map (fun p => LineTo (fst (denormalize p w h)) (snd (denormalize p w h))) rest
      ++ [StrokePath]
  | _ => []
  end.

End Whiteboard.

(** ** [ReviewPage]: drawing mode, draft comment and submission *)

Module Review.
Import Geometry Store Whiteboard.

(** ECMAScript white space and line terminators among the code units 0..255. *)
Definition isWhiteSpace (a : ascii) : bool :=
  bool_decide (nat_of_ascii a ∈ [9; 10; 11; 12; 13; 32; 160]%nat).

Fixpoint trimStart (s : list ascii) : list ascii :=
  match s with
  | a :: rest => if isWhiteSpace a then trimStart rest else s
  | [] => []
  end.

(** [String.prototype.trim] *)
Definition trim (s : string) : string :=
  string_of_list_ascii
    (rev (trimStart (rev (trimStart (list_ascii_of_string s))))).

(** Truthiness of a string: non-empty. *)
Definition truthy (s : string) : bool :=
  match s with EmptyString => false | String _ _ => true end.

(** The [useState] cells of [ReviewPage] that the handlers below touch,
    the props they read, and the overlay's [currentPoints]. *)
Record State : Type := mkState {
  project : option Project;
  isEditor : bool;
  currentTime : Q;
  isPlaying : bool;
  isDrawingMode : bool;
  currentDrawings : list Stroke;
  commentText : string;
  activeCommentId : option string;
  currentPoints : list Point
}.

Definition setDrawingMode (b : bool) (s : State) : State :=
  {| project := project s; isEditor := isEditor s; currentTime := currentTime s;
     isPlaying := isPlaying s; isDrawingMode := b;
     currentDrawings := currentDrawings s; commentText := commentText s;
     activeCommentId := activeCommentId s; currentPoints := currentPoints s |}.

Definition setCurrentPoints (pts : list Point) (s : State) : State :=
  {| project := project s; isEditor := isEditor s; currentTime := currentTime s;
     isPlaying := isPlaying s; isDrawingMode := isDrawingMode s;
     currentDrawings := currentDrawings s; commentText := commentText s;
     activeCommentId := activeCommentId s; currentPoints := pts |}.

Definition setCurrentDrawings (ds : list Stroke) (s : State) : State :=
  {| project := project s; isEditor := isEditor s; currentTime := currentTime s;
     isPlaying := isPlaying s; isDrawingMode := isDrawingMode s;
     currentDrawings := ds; commentText := commentText s;
     activeCommentId := activeCommentId s; currentPoints := currentPoints s |}.

Definition setIsPlaying (b : bool) (s : State) : State :=
  {| project := project s; isEditor := isEditor s; currentTime := currentTime s;
     isPlaying := b; isDrawingMode := isDrawingMode s;
     currentDrawings := currentDrawings s; commentText := commentText s;
     activeCommentId := activeCommentId s; currentPoints := currentPoints s |}.

Definition setCommentText (t : string) (s : State) : State :=
  {| project := project s; isEditor := isEditor s; currentTime := currentTime s;
     isPlaying := isPlaying s; isDrawingMode := isDrawingMode s;
     currentDrawings := currentDrawings s; commentText := t;
     activeCommentId := activeCommentId s; currentPoints := currentPoints s |}.

Definition setActiveCommentId (a : option string) (s : State) : State :=
  {| project := project s; isEditor := isEditor s; currentTime := currentTime s;
     isPlaying := isPlaying s; isDrawingMode := isDrawingMode s;
     currentDrawings := currentDrawings s; commentText := commentText s;
     activeCommentId := a; currentPoints := currentPoints s |}.

Definition setCurrentTime (t : Q) (s : State) : State :=
  {| project := project s; isEditor := isEditor s; currentTime := t;
     isPlaying := isPlaying s; isDrawingMode := isDrawingMode s;
     currentDrawings := currentDrawings s; commentText := commentText s;
     activeCommentId := activeCommentId s; currentPoints := currentPoints s |}.

(** [togglePlay], with the video element mounted. *)
Definition togglePlay (s : State) : State :=
  setIsPlaying (negb (isPlaying s))
    (if isPlaying s then s else setDrawingMode false s).

(** The [onClick] of the Draw button. *)
Definition clickDraw (s : State) : State :=
  setActiveCommentId None
    (setCurrentDrawings []
       (setDrawingMode true (if isPlaying s then togglePlay s else s))).

(** The [onClick] of the close button of the drawing-mode badge. *)
Definition clickCloseDraw (s : State) : State := setDrawingMode false s.

(** [onDrawEnd={(stroke) => setCurrentDrawings([...currentDrawings, stroke])}] *)
Definition onDrawEnd (stroke : Stroke) (s : State) : State :=
  setCurrentDrawings (currentDrawings s ++ [stroke]) s.

(** The draft object built by [handleSubmitComment]. *)
Definition draftOf (s : State) : CommentDraft :=
  {| d_authorId := if isEditor s then "user_1" else "guest";
     d_authorName := if isEditor s then "Editor" else "Guest Client";
     d_text := commentText s;
     d_timestamp := currentTime s;
     d_resolved := false;
     d_drawingData :=
       if (0 <? length (currentDrawings s))%nat then Some (currentDrawings s)
       else None |}.

(** [handleSubmitComment]; [now1], [now2] are the clock readings that
    [addComment] takes. *)
Definition handleSubmitComment (now1 now2 : Z) (s : State) (d : DB) : State * DB :=
  match project s with
  | Some p =>
      if negb (truthy (trim (commentText s))) then (s, d)
      else
        match addComment (p_id p) (draftOf s) now1 now2 d with
        | Fulfilled (d', _) =>
            (setDrawingMode false (setCurrentDrawings [] (setCommentText "" s)), d')
        | Rejected _ => (s, d)
        end
  | None => (s, d)
  end.

(** The pointer, button and keyboard events of the page. *)
Inductive Event : Type :=
  | MouseDown (rect : DOMRect) (e : MouseEvent)
  | MouseMove (rect : DOMRect) (e : MouseEvent)
  | MouseUp
  | MouseLeave
  | ClickDraw
  | ClickCloseDraw
  | TogglePlay
  | ChangeText (t : string)
  | SelectComment (c : Comment)
  | SubmitComment (now1 now2 : Z).

(** One event followed by the re-render it causes: the next rendered
    state and database, and the strokes handed to [onDrawEnd] while
    handling it.  The Draw button exists only outside drawing mode and the
    close button only inside it.  Pointer events that are handled before
    the re-render of the previous one are the subject of [Batched]. *)
Definition step (sd : State * DB) (ev : Event) : State * DB * list Stroke :=
  let (s, d) := sd in
  match ev with
  | MouseDown rect e =>
      (setCurrentPoints (handleMouseDown (isDrawingMode s) rect e (currentPoints s)) s, d, [])
  | MouseMove rect e =>
      (setCurrentPoints (handleMouseMove (isDrawingMode s) rect e (currentPoints s)) s, d, [])
  | MouseUp | MouseLeave =>
      match handleMouseUp (isDrawingMode s) (currentPoints s) with
      | (pts, Some stroke) => (setCurrentPoints pts (onDrawEnd stroke s), d, [stroke])
      | (pts, None) => (setCurrentPoints pts s, d, [])
      end
  | ClickDraw => (if isDrawingMode s then s else clickDraw s, d, [])
  | ClickCloseDraw => (if isDrawingMode s then clickCloseDraw s else s, d, [])
  | TogglePlay => (togglePlay s, d, [])
  | ChangeText t => (setCommentText t s, d, [])
  | SelectComment c =>
      (setActiveCommentId (Some (id c)) (setCurrentTime (timestamp c) s), d, [])
  | SubmitComment now1 now2 =>
      (handleSubmitComment now1 now2 s d, [])
  end.

(** A sequence of events, each handled after the re-render of the
    previous one; the strokes handed to [onDrawEnd] in order. *)
Fixpoint run (sd : State * DB) (evs : list Event) : State * DB * list Stroke :=
  match evs with
  | [] => (sd, [])
  | ev :: rest =>
      let '(sd1, out1) := step sd ev in
      let '(sd2, out2) := run sd1 rest in
      (sd2, out1 ++ out2)
  end.

Definition emitted (sd : State * DB) (evs : list Event) : list Stroke :=
  snd (run sd evs).

(** A capture gesture: a press, the moves that follow it, and the event
    that ends it (a release or the pointer leaving the canvas).  Each pointer
    event comes with the canvas rect read while handling it. *)
Definition gesture (down : DOMRect * MouseEvent)
  (moves : list (DOMRect * MouseEvent)) (fin : Event) : list Event :=
  MouseDown (fst down) (snd down)
    :: map (fun m => MouseMove (fst m) (snd m)) moves ++ [fin].

Definition endsGesture (fin : Event) : Prop := fin = MouseUp \/ fin = MouseLeave.

(** The points a gesture captures, in capture order. *)
Definition captured (down : DOMRect * MouseEvent)
  (moves : list (DOMRect * MouseEvent)) : list Point :=
  map (fun m => getNormPoint (fst m) (snd m)) (down :: moves).

(** The page as [useState] initialises it, for a loaded project. *)
Definition initialState (p : Project) (editor : bool) : State :=
  {| project := Some p; isEditor := editor; currentTime := 0%Q;
     isPlaying := false; isDrawingMode := false; currentDrawings := [];
     commentText := ""; activeCommentId := None; currentPoints := [] |}.

End Review.

(** ** Pointer events between re-renders *)

Module Batched.
Import Geometry Whiteboard.

(** The values the handlers of the current render close over ([isDrawing],
    [currentPoints], and the [currentDrawings] inside [onDrawEnd]) and the
    values their setters have queued for the next render.  A setter call
    with a value replaces what was queued for that cell. *)
Record Live : Type := mkLive {
  isDrawing : bool;
  currentPoints : list Point;
  currentDrawings : list Stroke;
  queuedPoints : list Point;
  queuedDrawings : list Stroke
}.

(** [setCurrentPoints(pts)] *)
Definition queuePoints (pts : list Point) (l : Live) : Live :=
  {| isDrawing := isDrawing l; currentPoints := currentPoints l;
     currentDrawings := currentDrawings l;
     queuedPoints := pts; queuedDrawings := queuedDrawings l |}.

(** [setCurrentDrawings(ds)] *)
Definition queueDrawings (ds : list Stroke) (l : Live) : Live :=
  {| isDrawing := isDrawing l; currentPoints := currentPoints l;
     currentDrawings := currentDrawings l;
     queuedPoints := queuedPoints l; queuedDrawings := ds |}.

(** The next render: the queued values become the ones closed over. *)
Definition rerender (l : Live) : Live :=
  {| isDrawing := isDrawing l; currentPoints := queuedPoints l;
     currentDrawings := queuedDrawings l;
     queuedPoints := queuedPoints l; queuedDrawings := queuedDrawings l |}.

(** [handleMouseDown]: a guard that fails leaves without a setter call. *)
Definition handleMouseDown (rect : DOMRect) (e : MouseEvent) (l : Live) : Live :=
  if negb (isDrawing l) then l
  else queuePoints [getNormPoint rect e] l.

(** [handleMouseMove]: [[...currentPoints, p]] is built from the closure. *)
Definition handleMouseMove (rect : DOMRect) (e : MouseEvent) (l : Live) : Live :=
  if negb (isDrawing l) || (length (currentPoints l) =? 0)%nat then l
  else queuePoints (currentPoints l ++ [getNormPoint rect e]) l.

(** [handleMouseUp], with [onDrawEnd] as [ReviewPage] passes it:
    [setCurrentDrawings([...currentDrawings, stroke])]. *)
Definition handleMouseUp (l : Live) : Live * list Stroke :=
  if negb (isDrawing l) || (length (currentPoints l) =? 0)%nat then (l, [])
  else (queuePoints []
          (queueDrawings (currentDrawings l ++ [inkStroke (currentPoints l)]) l),
        [inkStroke (currentPoints l)]).

(** A pointer event of the canvas, or a re-render. *)
Inductive Step : Type :=
  | Down (rect : DOMRect) (e : MouseEvent)
  | Move (rect : DOMRect) (e : MouseEvent)
  | Up
  | Leave
  | Rerender.

Definition step (l : Live) (st : Step) : Live * list Stroke :=
  match st with
  | Down rect e => (handleMouseDown rect e l, [])
  | Move rect e => (handleMouseMove rect e l, [])
  | Up | Leave => handleMouseUp l
  | Rerender => (rerender l, [])
  end.

Fixpoint run (l : Live) (t : list Step) : Live * list Stroke :=
  match t with
  | [] => (l, [])
  | st :: rest =>
      let '(l1, out1) := step l st in
      let '(l2, out2) := run l1 rest in
      (l2, out1 ++ out2)
  end.

(** The strokes handed to [onDrawEnd], in order. *)
Definition emitted (l : Live) (t : list Step) : list Stroke := snd (run l t).

Definition isPointer (st : Step) : bool :=
  match st with Rerender => false | _ => true end.

(** The pointer events of a trace, in order. *)
Definition pointerSteps (t : list Step) : list Step := List.filter isPointer t.

(** A trace in which a re-render follows every pointer event. *)
Definition rendered (t : list Step) : list Step :=
  concat (map (fun st => [st; Rerender]) t).

(** The pointer events of a capture gesture. *)
Definition gesture (down : DOMRect * MouseEvent)
  (moves : list (DOMRect * MouseEvent)) (fin : Step) : list Step :=
  Down (fst down) (snd down) :: map (fun m => Move (fst m) (snd m)) moves ++ [fin].

Definition endsGesture (fin : Step) : Prop := fin = Up \/ fin = Leave.

(** No stroke in progress, shown or queued. *)
Definition idle (l : Live) : Prop := currentPoints l = [] /\ queuedPoints l = [].

(** The page state as the overlay's handlers see it right after a render. *)
Definition ofState (s : Review.State) : Live :=
  {| isDrawing := Review.isDrawingMode s;
     currentPoints := Review.currentPoints s;
     currentDrawings := Review.currentDrawings s;
     queuedPoints := Review.currentPoints s;
     queuedDrawings := Review.currentDrawings s |}.

(** A pointer event as an event of the page. *)
Definition toEvent (st : Step) : option Review.Event :=
  match st with
  | Down rect e => Some (Review.MouseDown rect e)
  | Move rect e => Some (Review.MouseMove rect e)
  | Up => Some Review.MouseUp
  | Leave => Some Review.MouseLeave
  | Rerender => None
  end.

End Batched.

(** ** [AIService.summarizeFeedback] *)

Module AI.

(** One element of [feedbackData]. *)
Record Feedback : Type := mkFeedback {
  time : string; author : string; ftext : string
}.

(** [s.padStart(2, '0')] *)
Definition padStart2 (s : string) : string :=
  match s with
  | EmptyString => "00"
  | String a EmptyString => String "0" s
  | _ => s
  end.

(** Rounding towards zero. *)
Definition Qtrunc (a : Q) : Z := Z.quot (Qnum a) (Zpos (Qden a)).

(** [a % 60] on numbers: the remainder carries the sign of the dividend. *)
Definition rem60 (a : Q) : Q := (a - 60 * inject_Z (Qtrunc (a / 60)))%Q.

(** [`${Math.floor(t / 60)}:${Math.floor(t % 60).toString().padStart(2,'0')}`] *)
Definition timeLabel (t : Q) : string :=
  (pretty (Qfloor (t / 60)) +:+ ":" +:+ padStart2 (pretty (Qfloor (rem60 t))))%string.

Definition feedbackOf (c : Comment) : Feedback :=
  {| time := timeLabel (timestamp c); author := authorName c; ftext := text c |}.

(** A [generateContent] request.  The prompt text is a fixed template
    around the video title and the JSON of the feedback data, so a request
    is recorded by its model name and these two. *)
Record Request : Type := mkRequest {
  model : string; videoTitle : string; feedbackData : list Feedback
}.

Section Summarize.

(** [AI_API_KEY], read once from the environment. *)
Variable AI_API_KEY : string.

(** The remote service: the response text, or [None] when the call throws. *)
Variable generateContent : Request -> option string.

(** [summarizeFeedback]: the returned string and the requests issued. *)
Definition summarizeFeedback (comments : list Comment) (title : string)
  : string * list Request :=
  if negb (Review.truthy AI_API_KEY)
  then ("Configuration Error: API_KEY is missing."%string, [])
  else
    let unresolved := List.filter (fun c => negb (resolved c)) comments in
    if (length unresolved =? 0)%nat
    then ("All feedback resolved! Good job."%string, [])
    else
      let req := {| model := "gemini-2.5-flash"; videoTitle := title;
                    feedbackData := map feedbackOf unresolved |} in
      match generateContent req with
      | Some response => (response, [req])
      | None => ("Could not generate summary. Check API Key."%string, [req])
      end.

End Summarize.

End AI.

(** ** [formatTime] *)

Module Format.

(** The two numbers [formatTime] prints. *)
Definition minutesOf (seconds : Q) : Z := Qfloor (seconds / 60).
Definition secondsOf (seconds : Q) : Z := Qfloor (AI.rem60 seconds).

(** The argument of [formatTime]: a finite number, or one of [NaN] and the
    infinities. *)
Inductive Num : Type :=
  | Finite (q : Q)
  | NotFinite.

(** [formatTime].  The finite branch prints the exact floors in plain
    decimal, as the code does for times below 2^53 seconds; the code's
    doubles part from it above that. *)
Definition formatTime (seconds : Num) : string :=
  match seconds with
  | NotFinite => "0:00"
  | Finite q =>
      (pretty (minutesOf q) +:+ ":" +:+ AI.padStart2 (pretty (secondsOf q)))%string
  end.

End Format.

(** ** [AuthService] over [localStorage] *)

Module Auth.

(** [interface User] *)
Record User : Type := mkUser {
  uid : string; displayName : string; isAnonymous : bool
}.

(** [storedUid || fallback] on the result of [getItem]: [null] and the
    empty string are falsy. *)
Definition orElse (stored : option string) (fallback : string) : string :=
  match stored with
  | Some (String a rest) => String a rest
  | _ => fallback
  end.

Definition falsy (stored : option string) : bool :=
  match stored with
  | Some (String _ _) => false
  | _ => true
  end.

(** [signInAnonymously]; [rnd] is [Math.random().toString(36).substr(2, 9)].
    The result is the user and the storage afterwards. *)
Definition signInAnonymously (rnd : string) (localStorage : gmap string string)
  : User * gmap string string :=
  let storedUid := localStorage !! "cf_uid"%string in
  let u := orElse storedUid ("user_" +:+ rnd)%string in
  ({| uid := u; displayName := "Editor"; isAnonymous := true |},
   if falsy storedUid then <["cf_uid"%string := u]> localStorage else localStorage).

(** [signOut] keeps the stored id. *)
Definition signOut (localStorage : gmap string string) : gmap string string :=
  localStorage.

End Auth.

(** ** Project lookup: [getProjectByPublicId] and the effect of [ReviewPage] *)

Module Projects.
Import Store.

(** [Object.values(MOCK_DB.projects).find(p => p.publicId === publicId) || null] *)
Definition getProjectByPublicId (publicId : string) (d : DB) : option Project :=
  List.find (fun p => String.eqb (p_publicId p) publicId) (values (projects d)).

(** [Object.values(MOCK_DB.projects).find(p => p.id === projectId || p.publicId === projectId)] *)
Definition findProject (projectId : string) (d : DB) : option Project :=
  List.find (fun p => String.eqb (p_id p) projectId || String.eqb (p_publicId p) projectId)
    (values (projects d)).

(** [const pId = p ? p.id : projectId], the key the page subscribes to. *)
Definition subscriptionKey (projectId : string) (d : DB) : string :=
  match findProject projectId d with
  | Some p => p_id p
  | None => projectId
  end.

(** [handleManualUrlSubmit] of the dashboard, as far as the store goes:
    [user] is the signed-in user's id when there is one. *)
Definition handleManualUrlSubmit (manualUrl : string) (user : option string)
  (now1 now2 : Z) (rnd : string) (d : DB) : DB :=
  match user with
  | Some userId =>
      if negb (Review.truthy manualUrl) then d
      else dbAfter d (createProject userId "Linked Video Project" manualUrl ready 0 now1 now2 rnd d)
  | None => d
  end.

(** The keys of an insertion-ordered object. *)
Definition keys {V : Type} (o : list (string * V)) : list string := map fst o.

(** [obj[key]] on an insertion-ordered object; [None] is [undefined]. *)
Fixpoint lookupKey {V : Type} (key : string) (o : list (string * V)) : option V :=
  match o with
  | [] => None
  | (k, v) :: rest => if String.eqb k key then Some v else lookupKey key rest
  end.

End Projects.

(** ** The selected comment and the canvas frame *)

Module Overlay.
Import Geometry Whiteboard.

(** [comments.find(c => c.id === activeCommentId)]; [null] equals no id. *)
Definition activeComment (comments : list Comment) (activeCommentId : option string)
  : option Comment :=
  match activeCommentId with
  | Some i => List.find (fun c => String.eqb (id c) i) comments
  | None => None
  end.

(** [activeComment?.drawingData] *)
Definition activeCommentDrawing (comments : list Comment)
  (activeCommentId : option string) : option (list Stroke) :=
  match activeComment comments activeCommentId with
  | Some c => drawingData c
  | None => None
  end.

(** The canvas calls of one run of the drawing effect. *)
Inductive FrameOp : Type :=
  | ClearRect (x y w h : float)
  | SetLineCap (v : string)
  | SetLineJoin (v : string)
  | Path (op : CanvasOp).

(** The drawing effect of [WhiteboardOverlay], with the canvas mounted:
    the session's strokes, then the stroke in progress, then the selected
    comment's strokes. *)
Definition renderFrame (w h : float) (drawingData : list Stroke)
  (currentPoints : list Point) (activeDrawing : option (list Stroke))
  : list FrameOp :=
  [ClearRect 0 0 w h; SetLineCap "round"; SetLineJoin "round"]
  ++ map Path
       (concat (map (drawStroke w h) drawingData)
        ++ (if (0 <? length currentPoints)%nat
            then drawStroke w h (inkStroke currentPoints) else [])
        ++ match activeDrawing with
           | Some ds => concat (map (drawStroke w h) ds)
           | None => []
           end).

(** The frame [ReviewPage] asks for. *)
Definition pageFrame (w h : float) (s : Review.State) (comments : list Comment)
  : list FrameOp :=
  renderFrame w h (Review.currentDrawings s) (Review.currentPoints s)
    (activeCommentDrawing comments (Review.activeCommentId s)).


(** A stroke [drawStroke] draws. *)
Definition drawable (s : Stroke) : bool := (2 <=? length (points s))%nat.

End Overlay.

(** ** Predicates used in the statements below *)

Module Facts.

(** Playback and drawing mode are not on together. *)
Definition exclusive (s : Review.State) : Prop :=
  Review.isPlaying s && Review.isDrawingMode s = false.

(** A pointer event of the canvas. *)
Definition isPointer (ev : Review.Event) : bool :=
  match ev with
  | Review.MouseDown _ _ | Review.MouseMove _ _ | Review.MouseUp | Review.MouseLeave => true
  | _ => false
  end.

(** An event of the subscription machinery: it reads the store only. *)
Definition isPolling (ev : Sync.Event) : bool :=
  match ev with
  | Sync.Tick _ | Sync.Unsubscribe _ | Sync.SubscribeProjects _ _
  | Sync.SubscribeComments _ _ => true
  | _ => false
  end.

(** Comment objects that differ at most in [resolved], position by position. *)
Definition sameButResolvedAll (l l' : list Comment) : Prop :=
  Forall2 Store.sameButResolved l l'.

(** The [createdAt] readings taken by the [addComment] calls of a run
    never step back, starting from [lo]. *)
Fixpoint clockFrom (lo : Z) (evs : list Sync.Event) : Prop :=
  match evs with
  | [] => True
  | Sync.AddComment _ _ _ now2 :: rest => lo <= now2 /\ clockFrom now2 rest
  | _ :: rest => clockFrom lo rest
  end.

(** The strokes a list of gestures leaves, one per gesture, in order. *)
Definition strokesOf
  (gs : list ((Geometry.DOMRect * Geometry.MouseEvent)
              * list (Geometry.DOMRect * Geometry.MouseEvent) * Batched.Step))
  : list Stroke :=
  map (fun g => Whiteboard.inkStroke (Review.captured (fst (fst g)) (snd (fst g)))) gs.

(** The trace of a list of gestures made one after the other, with a
    re-render after every pointer event. *)
Definition gestures
  (gs : list ((Geometry.DOMRect * Geometry.MouseEvent)
              * list (Geometry.DOMRect * Geometry.MouseEvent) * Batched.Step))
  : list Batched.Step :=
  concat (map (fun g => Batched.rendered
                          (Batched.gesture (fst (fst g)) (snd (fst g)) (snd g))) gs).

(** The [createdAt] values of an array never step back and stay below [hi]. *)
Definition steady (hi : Z) (cs : list Comment) : Prop :=
  StronglySorted Z.le (map createdAt cs) /\ Forall (fun z => z <= hi) (map createdAt cs).

Definition steadyDb (hi : Z) (d : Store.DB) : Prop :=
  forall pid cs, Store.comments d !! pid = Some cs -> steady hi cs.

(** A text made of white space only (the empty text included). *)
Definition blank (t : string) : Prop :=
  Forall (fun a => Review.isWhiteSpace a = true) (list_ascii_of_string t).

End Facts.

(** * Properties *)

(** ** Geometry *)

Section GeometryFacts.
Import Geometry.

(** Scaling a coordinate to a canvas and dividing it back rounds twice. *)
Example scaling_rounds :
  fst (denormalize (mkPoint 0.1 0.2) 3 101) = 0.30000000000000004%float /\
  (fst (denormalize (mkPoint 0.1 0.2) 3 101) / 3)%float = 0.10000000000000002%float /\
  (snd (denormalize (mkPoint 0.1 0.2) 3 101) / 101)%float <> 0.2%float.
Proof. split; [reflexivity|]. split; [reflexivity|]. vm_compute. discriminate. Qed.

(** [getNormPoint] on a rect without width divides by zero. *)
Example getNormPoint_zero_width :
  px (getNormPoint (mkRect 0 0 0 100) (mkMouse 40 40)) = infinity /\
  PrimFloat.is_nan (px (getNormPoint (mkRect 0 0 0 100) (mkMouse 0 40))) = true.
Proof. split; reflexivity. Qed.

End GeometryFacts.

(** ** Timeline markers *)

Section TimelineFacts.
Import Timeline.
#[local] Open Scope Q_scope.

(** The denominator of the marker fraction is never zero. *)
Lemma orOne_nonzero (duration : Q) : ~ orOne duration == 0.
Proof.
  unfold orOne. destruct (Qeq_bool duration 0) eqn:E.
  - discriminate.
  - apply Qeq_bool_neq. exact E.
Qed.

Lemma orOne_zero (duration : Q) : duration == 0 -> orOne duration = 1.
Proof.
  intros H. unfold orOne. apply Qeq_bool_iff in H. rewrite H. reflexivity.
Qed.

Lemma orOne_positive (duration : Q) : 0 < duration -> orOne duration = duration.
Proof.
  intros H. unfold orOne. destruct (Qeq_bool duration 0) eqn:E; [|reflexivity].
  apply Qeq_bool_iff in E. rewrite E in H. lra.
Qed.

(** C2, as the code has it: the marker fraction is the plain quotient
    [timestamp / (duration || 1)], with no clamp.  The denominator is never
    zero and collapses to 1 for a zero duration; the fraction lies in [0, 1]
    exactly for the timestamps within [0, duration || 1] when that
    denominator is positive, and the printed percentage is 100 times it. *)
Theorem marker_position_unclamped (c : Comment) (duration : Q) :
  ~ orOne duration == 0 /\
  (duration == 0 -> markerPosition c duration == timestamp c) /\
  markerLeft c duration == timestamp c / orOne duration * 100 /\
  (0 < orOne duration ->
   (0 <= markerPosition c duration <= 1 <-> 0 <= timestamp c <= orOne duration)).
Proof.
  split; [apply orOne_nonzero|]. split; [|split].
  - intros H. unfold markerPosition. rewrite (orOne_zero _ H). field.
  - reflexivity.
  - intros Hpos. unfold markerPosition. split.
    + intros [H0 H1]. split.
      * apply Qmult_le_r with (z := / orOne duration).
        { apply Qinv_lt_0_compat. exact Hpos. }
        rewrite Qmult_0_l. exact H0.
      * apply Qmult_le_r with (z := / orOne duration).
        { apply Qinv_lt_0_compat. exact Hpos. }
        rewrite Qmult_inv_r by (intros E; rewrite E in Hpos; lra). exact H1.
    + intros [H0 H1]. split.
      * apply Qle_shift_div_l; [exact Hpos|]. lra.
      * apply Qle_shift_div_r; [exact Hpos|]. lra.
Qed.

Lemma marker_position_unclamped_witness :
  0 <= markerPosition (Store.seedComment 0) 596 <= 1.
Proof.
  pose proof (marker_position_unclamped (Store.seedComment 0) 596) as (_ & _ & _ & H).
  apply H; vm_compute; split; congruence.
Defined.

(** C2 as stated fails: a comment stamped after the end of a 596 second
    video gets a marker beyond the right end of the scrubber, one stamped
    before zero a marker left of it, and with duration 0 the seed comment's
    5.2 seconds become the fraction 5.2. *)
Lemma marker_position_counterexample :
  let late := Store.newComment (mkDraft "guest" "Guest Client" "late" 745 false None) 1 1 in
  let early := Store.newComment (mkDraft "guest" "Guest Client" "early" (-149) false None) 2 2 in
  markerPosition late 596 == 5 # 4 /\
  ~ markerPosition late 596 <= 1 /\
  ~ 0 <= markerPosition early 596 /\
  markerPosition (Store.seedComment 0) 0 == 26 # 5 /\
  ~ markerPosition (Store.seedComment 0) 0 <= 1.
Proof.
  cbv zeta. repeat split; vm_compute; congruence.
Qed.

End TimelineFacts.

(** ** The order of [loadComments] *)

Section SortFacts.
Import Store.

Lemma byTimestamp_le (a b : Comment) :
  Qle_bool (byTimestamp a b) 0 = true <-> tsLe a b.
Proof.
  unfold byTimestamp, tsLe. rewrite Qle_bool_iff. split; intros H; lra.
Qed.

Lemma byTimestamp_gt (a b : Comment) :
  Qle_bool (byTimestamp a b) 0 = false -> (timestamp b < timestamp a)%Q.
Proof.
  intros H. apply Qnot_le_lt. intros Hle.
  apply byTimestamp_le in Hle. congruence.
Qed.

Lemma sortInsert_perm cmp x l : Permutation (sortInsert cmp x l) (x :: l).
Proof.
  induction l as [|y l IH]; simpl; [reflexivity|].
  destruct (Qle_bool (cmp x y) 0); [reflexivity|].
  rewrite IH. apply perm_swap.
Qed.

Lemma sort_perm cmp l : Permutation (sort cmp l) l.
Proof.
  induction l as [|x l IH]; simpl; [reflexivity|].
  rewrite sortInsert_perm. now constructor.
Qed.

Lemma tsLe_trans a b c : tsLe a b -> tsLe b c -> tsLe a c.
Proof. unfold tsLe. intros. lra. Qed.

Lemma sortInsert_sorted x l :
  StronglySorted tsLe l -> StronglySorted tsLe (sortInsert byTimestamp x l).
Proof.
  induction 1 as [|y l Hs IH Hall]; simpl.
  - repeat constructor.
  - destruct (Qle_bool (byTimestamp x y) 0) eqn:E.
    + apply byTimestamp_le in E. constructor; [now constructor|].
      constructor; [exact E|].
      eapply Forall_impl; [exact Hall|]. intros z Hz. eapply tsLe_trans; eauto.
    + apply byTimestamp_gt in E. constructor; [exact IH|].
      rewrite (sortInsert_perm byTimestamp x l). constructor; [|exact Hall].
      unfold tsLe. lra.
Qed.

Lemma sort_sorted l : StronglySorted tsLe (sort byTimestamp l).
Proof.
  induction l as [|x l IH]; simpl; [constructor|].
  now apply sortInsert_sorted.
Qed.

(** Stability: the comments at one video time keep their relative order. *)
Lemma sortInsert_atTime t x l :
  atTime t (sortInsert byTimestamp x l) = atTime t (x :: l).
Proof.
  induction l as [|y l IH]; [reflexivity|].
  cbn [sortInsert]. destruct (Qle_bool (byTimestamp x y) 0) eqn:E; [reflexivity|].
  apply byTimestamp_gt in E.
  unfold atTime in *. cbn [List.filter] in *. rewrite IH.
  destruct (Qeq_bool (timestamp x) t) eqn:Ex, (Qeq_bool (timestamp y) t) eqn:Ey;
    try reflexivity.
  apply Qeq_bool_iff in Ex, Ey. rewrite Ex, Ey in E. lra.
Qed.

Lemma sort_atTime t l : atTime t (sort byTimestamp l) = atTime t l.
Proof.
  induction l as [|x l IH]; [reflexivity|].
  cbn [sort foldr]. fold (sort byTimestamp l).
  rewrite sortInsert_atTime. unfold atTime in *. cbn [List.filter]. now rewrite IH.
Qed.

(** Inserting a comment that is no younger than any comment of a list
    already in (timestamp, createdAt) order keeps that order. *)
Lemma sortInsert_tsCreated x l :
  Forall (fun y => createdAt x <= createdAt y) l ->
  StronglySorted tsCreatedLe l ->
  StronglySorted tsCreatedLe (sortInsert byTimestamp x l).
Proof.
  intros Hold Hs. induction Hs as [|y l Hs IH Hall]; simpl.
  - repeat constructor.
  - inversion Hold as [|? ? Hxy Hold']; subst.
    destruct (Qle_bool (byTimestamp x y) 0) eqn:E.
    + apply byTimestamp_le in E. unfold tsLe in E.
      assert (Hxy' : tsCreatedLe x y).
      { unfold tsCreatedLe. destruct (Qlt_le_dec (timestamp x) (timestamp y)).
        - now left.
        - right. split; [lra|exact Hxy]. }
      constructor; [now constructor|]. constructor; [exact Hxy'|].
      rewrite Forall_forall in Hall, Hold' |- *. intros z Hz.
      specialize (Hall z Hz). specialize (Hold' z Hz).
      unfold tsCreatedLe in *.
      destruct (Qlt_le_dec (timestamp x) (timestamp z)); [now left|].
      right. split; [|exact Hold'].
      destruct Hall as [?|[? ?]]; lra.
    + apply byTimestamp_gt in E. constructor; [now apply IH|].
      rewrite (sortInsert_perm byTimestamp x l). constructor; [|exact Hall].
      now left.
Qed.

Lemma sort_tsCreated l :
  StronglySorted (fun a b => createdAt a <= createdAt b) l ->
  StronglySorted tsCreatedLe (sort byTimestamp l).
Proof.
  induction 1 as [|x l Hs IH Hall]; simpl; [constructor|].
  apply sortInsert_tsCreated; [|exact IH].
  now rewrite (sort_perm byTimestamp l).
Qed.

(** C3, as the code has it: what a comments subscriber receives is the
    stored array reordered by timestamp ascending with a stable sort, so
    comments at equal timestamps keep their stored (insertion) order; that
    order is [createdAt] ascending whenever the stored array has
    non-decreasing [createdAt], as arrays filled by [addComment] under a
    clock that never steps back do. *)
Theorem loadComments_sorted_stable (projectId : string) (d : DB) :
  Permutation (loadComments projectId d) (commentsOf projectId d) /\
  StronglySorted tsLe (loadComments projectId d) /\
  (forall t, atTime t (loadComments projectId d) = atTime t (commentsOf projectId d)) /\
  (StronglySorted (fun a b => createdAt a <= createdAt b) (commentsOf projectId d) ->
   StronglySorted tsCreatedLe (loadComments projectId d)).
Proof.
  unfold loadComments. split; [apply sort_perm|].
  split; [apply sort_sorted|]. split.
  - intros t. apply sort_atTime.
  - apply sort_tsCreated.
Qed.

Lemma loadComments_sorted_stable_witness :
  let d0 := MOCK_DB 1000000 in
  let d1 := dbAfter d0 (addComment "proj_1" (mkDraft "guest" "Guest Client" "late" 9 false None) 1000100 1000100 d0) in
  let d2 := dbAfter d1 (addComment "proj_1" (mkDraft "guest" "Guest Client" "early" 3 false None) 1000200 1000200 d1) in
  let d3 := dbAfter d2 (addComment "proj_1" (mkDraft "guest" "Guest Client" "tie" 9 false None) 1000300 1000300 d2) in
  let d4 := dbAfter d3 (addComment "proj_1" (mkDraft "guest" "Guest Client" "tie" 3 false None) 1000300 1000300 d3) in
  map createdAt (commentsOf "proj_1" d4) = [950000; 1000100; 1000200; 1000300; 1000300] /\
  map createdAt (loadComments "proj_1" d4) = [1000200; 1000300; 950000; 1000100; 1000300] /\
  StronglySorted tsCreatedLe (loadComments "proj_1" d4).
Proof.
  intros d0 d1 d2 d3 d4. split; [reflexivity|]. split; [reflexivity|].
  apply (loadComments_sorted_stable "proj_1" d4).
  vm_compute. repeat constructor; discriminate.
Defined.

(** C3 as stated fails: two comments at the same video time, the one
    pushed first carrying the later [createdAt] (the clock stepped back
    between the two calls), are delivered in push order. *)
Lemma loadComments_tie_counterexample :
  let d0 := mkDB [] ∅ in
  let d1 := dbAfter d0 (addComment "p" (mkDraft "guest" "Guest Client" "first" 5 false None) 200 200 d0) in
  let d2 := dbAfter d1 (addComment "p" (mkDraft "guest" "Guest Client" "second" 5 false None) 100 100 d1) in
  map createdAt (loadComments "p" d2) = [200; 100] /\
  map timestamp (loadComments "p" d2) = [5%Q; 5%Q] /\
  ~ StronglySorted tsCreatedLe (loadComments "p" d2).
Proof.
  cbv zeta. split; [reflexivity|]. split; [reflexivity|].
  intros H. vm_compute in H.
  inversion H as [|? ? _ Hall]; subst.
  inversion Hall as [|? ? Hle _]; subst.
  destruct Hle as [Hlt|[_ Hle]]; vm_compute in *; congruence.
Qed.

End SortFacts.

(** ** The store operations *)

Section StoreFacts.
Import Store.

Lemma commentsOf_insert pid cs (d : DB) ps :
  commentsOf pid {| projects := ps; comments := <[pid := cs]> (comments d) |} = cs.
Proof. unfold commentsOf. cbn [comments]. now rewrite lookup_insert_eq. Qed.

(** [findIndex] answers -1 exactly when no comment carries the id. *)
Lemma findIndex_None cid (cs : list Comment) :
  findIndex cid cs = None <-> (forall c, c ∈ cs -> id c <> cid).
Proof.
  induction cs as [|c cs IH]; simpl.
  - split; [|reflexivity]. intros _ c Hc. inversion Hc.
  - destruct (String.eqb (id c) cid) eqn:E.
    + apply String.eqb_eq in E. split; [discriminate|].
      intros H. exfalso. apply (H c); [left|exact E].
    + apply String.eqb_neq in E. split.
      * intros H c' Hc'. destruct (findIndex cid cs) eqn:F; [discriminate|].
        apply elem_of_cons in Hc' as [->|Hc']; [exact E|].
        now apply (proj1 IH).
      * intros H. rewrite (proj2 IH); [reflexivity|].
        intros c' Hc'. apply H. now right.
Qed.

(** [findIndex] answers the first position that carries the id. *)
Lemma findIndex_Some cid (cs : list Comment) i :
  findIndex cid cs = Some i ->
  exists c, cs !! i = Some c /\ id c = cid /\
            forall j c', (j < i)%nat -> cs !! j = Some c' -> id c' <> cid.
Proof.
  revert i. induction cs as [|c cs IH]; intros i; simpl; [discriminate|].
  destruct (String.eqb (id c) cid) eqn:E.
  - intros [= <-]. apply String.eqb_eq in E. exists c. repeat split; [exact E|].
    intros j c' Hj. lia.
  - apply String.eqb_neq in E.
    destruct (findIndex cid cs) as [k|] eqn:F; [|discriminate].
    intros [= <-]. destruct (IH k eq_refl) as (c0 & Hc0 & Hid & Hfirst).
    exists c0. repeat split; [exact Hc0|exact Hid|].
    intros [|j] c' Hj Hl; simpl in Hl.
    + now injection Hl as <-.
    + apply (Hfirst j c'); [lia|exact Hl].
Qed.

(** C4, as the code has it: [addComment] never rejects and validates
    nothing.  For every draft it settles with the new comment, whose id is
    made from the first clock reading and whose [createdAt] is the second,
    every other field copied from the draft, pushed at the end of the
    project's array and nothing else touched.  Blank text is stopped
    earlier, in [handleSubmitComment], which returns without any call to
    the store and without an error when the trimmed text is empty. *)
Theorem addComment_always_fulfils (projectId : string) (draft : CommentDraft)
  (now1 now2 : Z) (d : DB) :
  (exists d',
     addComment projectId draft now1 now2 d
       = Fulfilled (d', newComment draft now1 now2) /\
     commentsOf projectId d' = commentsOf projectId d ++ [newComment draft now1 now2] /\
     (forall q, q <> projectId -> comments d' !! q = comments d !! q) /\
     projects d' = projects d) /\
  id (newComment draft now1 now2) = ("c_" +:+ pretty now1)%string /\
  createdAt (newComment draft now1 now2) = now2 /\
  authorId (newComment draft now1 now2) = d_authorId draft /\
  authorName (newComment draft now1 now2) = d_authorName draft /\
  text (newComment draft now1 now2) = d_text draft /\
  timestamp (newComment draft now1 now2) = d_timestamp draft /\
  resolved (newComment draft now1 now2) = d_resolved draft /\
  drawingData (newComment draft now1 now2) = d_drawingData draft /\
  (forall s, Review.trim (Review.commentText s) = ""%string ->
             Review.handleSubmitComment now1 now2 s d = (s, d)).
Proof.
  split; [|repeat split].
  - eexists. split; [reflexivity|]. split; [apply commentsOf_insert|].
    split; [|reflexivity].
    intros q Hq. cbn [comments]. now rewrite lookup_insert_ne.
  - intros s Hs. unfold Review.handleSubmitComment. rewrite Hs. cbn.
    now destruct (Review.project s).
Qed.

Lemma addComment_always_fulfils_witness :
  let s := Review.mkState (Some (seedProject 0)) false 3 false true [] "  " None [] in
  Review.handleSubmitComment 7 7 s (MOCK_DB 0) = (s, MOCK_DB 0).
Proof.
  intros s.
  refine (proj2 (proj2 (proj2 (proj2 (proj2 (proj2 (proj2 (proj2 (proj2
    (addComment_always_fulfils "proj_1" (Review.draftOf s) 7 7 (MOCK_DB 0)))))))))) s _).
  reflexivity.
Defined.

(** C4 as stated fails: a draft with blank text and a one-point stroke is
    accepted, stored and returned. *)
Lemma addComment_blank_counterexample :
  let dot := {| color := "#ef4444"; width := 4%float; points := [mkPoint 0.5 0.5] |} in
  let draft := mkDraft "guest" "Guest Client" "   " 5 false (Some [dot]) in
  let d := MOCK_DB 0 in
  Review.trim (d_text draft) = ""%string /\
  addComment "proj_1" draft 7 7 d <> Rejected ValidationError /\
  commentsOf "proj_1" (dbAfter d (addComment "proj_1" draft 7 7 d))
    = commentsOf "proj_1" d ++ [newComment draft 7 7] /\
  commentsOf "proj_1" (dbAfter d (addComment "proj_1" draft 7 7 d))
    <> commentsOf "proj_1" d.
Proof.
  cbv zeta. split; [reflexivity|]. split; [discriminate|].
  split; [reflexivity|]. vm_compute. discriminate.
Qed.

(** C5, as the code has it: when no comment of the project carries the id
    (or the project has no array), [resolveComment] settles normally, with
    the database exactly as it was; no error is raised. *)
Theorem resolveComment_missing_is_noop (projectId commentId : string) (r : bool)
  (d : DB) :
  (forall c, c ∈ commentsOf projectId d -> id c <> commentId) ->
  resolveComment projectId commentId r d = Fulfilled d.
Proof.
  intros H. unfold resolveComment, commentsOf in *.
  destruct (comments d !! projectId) as [cs|]; [|reflexivity].
  simpl in H. apply findIndex_None in H. now rewrite H.
Qed.

Lemma resolveComment_missing_is_noop_witness :
  resolveComment "proj_1" "c_404" true (MOCK_DB 0) = Fulfilled (MOCK_DB 0).
Proof.
  apply (resolveComment_missing_is_noop "proj_1" "c_404" true (MOCK_DB 0)).
  intros c Hc. vm_compute in Hc.
  apply list_elem_of_singleton in Hc. subst c. discriminate.
Defined.

(** C5 as stated fails: resolving an unknown comment id, or under an
    unknown project id, is not rejected. *)
Lemma resolveComment_missing_counterexample :
  (forall c, c ∈ commentsOf "proj_1" (MOCK_DB 0) -> id c <> "c_404"%string) /\
  resolveComment "proj_1" "c_404" true (MOCK_DB 0) <> Rejected NotFoundError /\
  resolveComment "proj_1" "c_404" true (MOCK_DB 0) = Fulfilled (MOCK_DB 0) /\
  resolveComment "proj_404" "c1" true (MOCK_DB 0) = Fulfilled (MOCK_DB 0).
Proof.
  split; [|split; [discriminate|split; reflexivity]].
  intros c Hc. vm_compute in Hc.
  apply list_elem_of_singleton in Hc. subst c. discriminate.
Qed.

End StoreFacts.

Section ResolveFrame.
Import Store.

Lemma setResolvedField_same r c : sameButResolved c (setResolvedField r c).
Proof. repeat split. Qed.

(** C8: [resolveComment] always settles normally; it leaves the projects
    and every other project's comments alone, keeps the length and order of
    the project's array, and each comment of that array keeps its id,
    author, text, timestamp, drawing and creation time.  A comment whose
    [resolved] flag differs afterwards is the first one carrying the given
    id, and its flag is the requested value; every comment at another
    position is the same object as before. *)
Theorem resolveComment_frame (projectId commentId : string) (r : bool) (d : DB) :
  exists d',
    resolveComment projectId commentId r d = Fulfilled d' /\
    projects d' = projects d /\
    (forall q, q <> projectId -> comments d' !! q = comments d !! q) /\
    length (commentsOf projectId d') = length (commentsOf projectId d) /\
    (forall i c, commentsOf projectId d !! i = Some c ->
       exists c', commentsOf projectId d' !! i = Some c' /\
                  sameButResolved c c' /\
                  (resolved c' <> resolved c ->
                   findIndex commentId (commentsOf projectId d) = Some i /\
                   id c = commentId /\ resolved c' = r) /\
                  (findIndex commentId (commentsOf projectId d) = Some i ->
                   resolved c' = r) /\
                  (findIndex commentId (commentsOf projectId d) <> Some i ->
                   c' = c)).
Proof.
  unfold resolveComment.
  destruct (comments d !! projectId) as [cs|] eqn:Hcs.
  2:{ exists d. repeat split; try done.
      intros i c Hc. exists c. repeat split; try done.
      unfold commentsOf in *. rewrite Hcs in *. discriminate. }
  assert (Hof : commentsOf projectId d = cs) by (unfold commentsOf; now rewrite Hcs).
  destruct (findIndex commentId cs) as [idx|] eqn:Hidx.
  2:{ exists d. rewrite Hof, Hidx. repeat split; try done.
      intros i c Hc. exists c. repeat split; try done. }
  eexists. split; [reflexivity|]. rewrite commentsOf_insert, Hof, Hidx.
  split; [reflexivity|]. split.
  { intros q Hq. cbn [comments]. now rewrite lookup_insert_ne. }
  split; [apply length_alter|].
  intros i c Hc. destruct (decide (i = idx)) as [->|Hne].
  - exists (setResolvedField r c). split.
    { rewrite list_lookup_alter_eq, Hc. reflexivity. }
    split; [apply setResolvedField_same|]. split; [|split].
    + intros _. split; [reflexivity|]. split; [|reflexivity].
      destruct (findIndex_Some _ _ _ Hidx) as (c0 & Hc0 & Hid & _). congruence.
    + reflexivity.
    + congruence.
  - exists c. split.
    { rewrite list_lookup_alter_ne by congruence. exact Hc. }
    split; [repeat split|]. split; [congruence|]. split; [|reflexivity].
    intros [= E]. congruence.
Qed.

Lemma resolveComment_frame_witness :
  exists d',
    resolveComment "proj_1" "c1" true (MOCK_DB 0) = Fulfilled d' /\
    exists c', commentsOf "proj_1" d' !! 0%nat = Some c' /\
               text c' = "Can we make the grass greener here?"%string /\
               resolved c' = true.
Proof.
  destruct (resolveComment_frame "proj_1" "c1" true (MOCK_DB 0))
    as (d' & Hres & _ & _ & _ & Hall).
  exists d'. split; [exact Hres|].
  destruct (Hall 0%nat (seedComment 0) eq_refl) as (c' & Hc' & Hsame & _ & Hset & _).
  exists c'. split; [exact Hc'|]. split.
  - destruct Hsame as (_ & _ & _ & Ht & _). exact Ht.
  - apply Hset. reflexivity.
Defined.

(** C8 as stated fails for a stored comment that shares its id with an
    earlier one (both were posted within the same millisecond): the call
    with its id leaves it as it was and flips the earlier comment. *)
Lemma resolveComment_shadowed_counterexample :
  let d0 := MOCK_DB 0 in
  let d1 := dbAfter d0 (addComment "proj_1" (mkDraft "guest" "Guest Client" "one" 3 false None) 7 7 d0) in
  let d2 := dbAfter d1 (addComment "proj_1" (mkDraft "guest" "Guest Client" "two" 4 false None) 7 7 d1) in
  let two := newComment (mkDraft "guest" "Guest Client" "two" 4 false None) 7 7 in
  commentsOf "proj_1" d2 !! 2%nat = Some two /\
  exists d',
    resolveComment "proj_1" (id two) true d2 = Fulfilled d' /\
    commentsOf "proj_1" d' !! 2%nat = Some two /\
    map text (commentsOf "proj_1" d') = map text (commentsOf "proj_1" d2) /\
    map resolved (commentsOf "proj_1" d2) = [false; false; false] /\
    map resolved (commentsOf "proj_1" d') = [false; true; false].
Proof.
  cbv zeta. split; [reflexivity|]. eexists. split; [reflexivity|].
  repeat split.
Qed.

End ResolveFrame.

(** ** Subscriptions *)

Section SyncFacts.
Import Store Sync.


















End SyncFacts.

(** ** Pointer events and re-renders *)

Section BatchedFacts.
Import Geometry Whiteboard Batched.

Lemma batched_run_app l t1 t2 :
  run l (t1 ++ t2)
  = let '(l1, out1) := run l t1 in
    let '(l2, out2) := run l1 t2 in (l2, out1 ++ out2).
Proof.
  revert l. induction t1 as [|st t1 IH]; intros l; cbn [app run].
  - now destruct (run l t2).
  - destruct (step l st) as [l1 out1]. rewrite IH.
    destruct (run l1 t1) as [l2 out2]. destruct (run l2 t2) as [l3 out3].
    now rewrite app_assoc.
Qed.

(** [Review.step] is the handler followed by the re-render. *)
Lemma step_is_handler_then_rerender (s : Review.State) (d : Store.DB) st ev :
  toEvent st = Some ev ->
  Review.step (s, d) ev
  = (Review.setCurrentPoints (currentPoints (rerender (fst (step (ofState s) st))))
       (Review.setCurrentDrawings
          (currentDrawings (rerender (fst (step (ofState s) st)))) s),
     d, snd (step (ofState s) st)).
Proof.
  destruct s as [pr ed ct pl dm ds txt act pts].
  destruct st; intros [= <-]; cbn; destruct dm; cbn; try reflexivity;
    destruct pts; reflexivity.
Qed.

(** Re-renders alone hand nothing over. *)
Lemma run_rerenders t : forall l, pointerSteps t = [] -> snd (run l t) = [].
Proof.
  induction t as [|st t IH]; intros l H; [reflexivity|].
  destruct st; try discriminate. cbn [run step].
  specialize (IH (rerender l) H). now destruct (run (rerender l) t).
Qed.

(** Moves that are each followed by a re-render append their points. *)
Lemma run_rendered_moves ms : forall l pts rest,
  isDrawing l = true -> pts <> [] ->
  run (rerender (queuePoints pts l))
      (rendered (map (fun m => Move (fst m) (snd m)) ms) ++ rest)
  = run (rerender (queuePoints (pts ++ map (fun m => getNormPoint (fst m) (snd m)) ms) l))
        rest.
Proof.
  induction ms as [|m ms IH]; intros l pts rest Hdraw Hne.
  - cbn. now rewrite app_nil_r.
  - unfold rendered. cbn [map concat app run step]. unfold handleMouseMove.
    cbn [isDrawing currentPoints rerender queuePoints queuedPoints].
    rewrite Hdraw. destruct pts as [|p ps]; [congruence|]. cbn [negb orb length Nat.eqb].
    change (rerender (queuePoints ((p :: ps) ++ [getNormPoint m.1 m.2])
                        (rerender (queuePoints (p :: ps) l))))
      with (rerender (queuePoints ((p :: ps) ++ [getNormPoint m.1 m.2]) l)).
    fold (rendered (map (fun m => Move (fst m) (snd m)) ms)).
    rewrite IH; [|exact Hdraw|discriminate].
    rewrite <- app_assoc. cbn [app].
    now destruct (run _ rest).
Qed.

(** A gesture with a re-render after every pointer event. *)
Lemma run_rendered_gesture l down moves fin :
  isDrawing l = true -> endsGesture fin ->
  run l (rendered (gesture down moves fin))
  = (rerender (queuePoints []
       (queueDrawings (queuedDrawings l ++ [inkStroke (Review.captured down moves)]) l)),
     [inkStroke (Review.captured down moves)]).
Proof.
  intros Hdraw Hfin. unfold gesture, rendered.
  cbn [map concat app run step]. unfold handleMouseDown. rewrite Hdraw. cbn [negb].
  rewrite map_app, concat_app.
  fold (rendered (map (fun m => Move (fst m) (snd m)) moves)).
  rewrite run_rendered_moves; [|exact Hdraw|discriminate].
  unfold Review.captured. cbn [map app].
  destruct Hfin as [-> | ->]; cbn [map concat app run step]; unfold handleMouseUp;
    cbn [isDrawing currentPoints rerender queuePoints queuedPoints length Nat.eqb];
    rewrite Hdraw; reflexivity.
Qed.

(** Moves handled in one batch, with no re-render between them, queue
    only the last point. *)
Lemma run_batch ms : forall l m rest,
  isDrawing l = true -> currentPoints l <> [] ->
  run l (map (fun m => Move (fst m) (snd m)) (ms ++ [m]) ++ rest)
  = run (queuePoints (currentPoints l ++ [getNormPoint (fst m) (snd m)]) l) rest.
Proof.
  induction ms as [|m0 ms IH]; intros l m rest Hdraw Hne;
    cbn [app map run step]; unfold handleMouseMove; rewrite Hdraw;
    destruct (currentPoints l) as [|p ps] eqn:Hp; try congruence;
    cbn [negb orb length Nat.eqb].
  - now destruct (run _ rest).
  - rewrite IH; [|exact Hdraw|cbn; rewrite Hp; discriminate].
    cbn [currentPoints queuePoints]. rewrite Hp.
    change (queuePoints ((p :: ps) ++ [getNormPoint m.1 m.2])
              (queuePoints ((p :: ps) ++ [getNormPoint m0.1 m0.2]) l))
      with (queuePoints ((p :: ps) ++ [getNormPoint m.1 m.2]) l).
    now destruct (run _ rest).
Qed.

(** After the press, whatever the re-renders: what is shown and what is
    queued are subsequences of the points captured so far, and so is the
    stroke handed over at the end, if any. *)
Lemma run_scheduled t : forall l ms fin seen,
  isDrawing l = true -> endsGesture fin ->
  pointerSteps t = map (fun m => Move (fst m) (snd m)) ms ++ [fin] ->
  currentPoints l `sublist_of` seen -> queuedPoints l `sublist_of` seen ->
  emitted l t = [] \/
  exists pts, emitted l t = [inkStroke pts] /\ pts <> [] /\
              pts `sublist_of` seen ++ map (fun m => getNormPoint (fst m) (snd m)) ms.
Proof.
  unfold emitted.
  induction t as [|st t IH]; intros l ms fin seen Hdraw Hfin Ht Hshown Hqueued.
  - destruct ms; discriminate.
  - destruct st.
    + exfalso. destruct ms as [|m ms]; cbn in Ht.
      * destruct Hfin as [-> | ->]; discriminate.
      * discriminate.
    + destruct ms as [|m ms]; cbn in Ht.
      { exfalso. destruct Hfin as [-> | ->]; discriminate. }
      injection Ht as Hrect He Ht.
      cbn [run step].
      assert (Hnext : exists l', handleMouseMove rect e l = l' /\ isDrawing l' = true /\
                currentPoints l' `sublist_of` seen ++ [getNormPoint m.1 m.2] /\
                queuedPoints l' `sublist_of` seen ++ [getNormPoint m.1 m.2]).
      { eexists. split; [reflexivity|]. unfold handleMouseMove. rewrite Hdraw. cbn [negb orb].
        destruct (length (currentPoints l) =? 0)%nat; cbn.
        - split; [exact Hdraw|]. split; now apply sublist_inserts_r.
        - split; [exact Hdraw|]. split; [now apply sublist_inserts_r|].
          rewrite Hrect, He. now apply sublist_app. }
      destruct Hnext as (l' & -> & Hdraw' & Hs' & Hq').
      specialize (IH l' ms fin _ Hdraw' Hfin Ht Hs' Hq').
      destruct (run l' t) as [l2 out2]. cbn [snd app] in *.
      rewrite <- app_assoc in IH. exact IH.
    + destruct ms as [|m ms]; cbn in Ht; [|discriminate].
      injection Ht as _ Ht. cbn [run step]. unfold handleMouseUp. rewrite Hdraw.
      cbn [negb orb]. rewrite app_nil_r.
      destruct (currentPoints l) as [|p ps] eqn:Hp; cbn [length Nat.eqb].
      * pose proof (run_rerenders t l Ht) as Hout. destruct (run l t) as [l2 out2].
        cbn in *. left. exact Hout.
      * match goal with |- context [run ?l' t] => pose proof (run_rerenders t l' Ht) as Hout;
          destruct (run l' t) as [l2 out2] end.
        cbn in *. subst out2. right. exists (p :: ps). now repeat split.
    + destruct ms as [|m ms]; cbn in Ht; [|discriminate].
      injection Ht as _ Ht. cbn [run step]. unfold handleMouseUp. rewrite Hdraw.
      cbn [negb orb]. rewrite app_nil_r.
      destruct (currentPoints l) as [|p ps] eqn:Hp; cbn [length Nat.eqb].
      * pose proof (run_rerenders t l Ht) as Hout. destruct (run l t) as [l2 out2].
        cbn in *. left. exact Hout.
      * match goal with |- context [run ?l' t] => pose proof (run_rerenders t l' Ht) as Hout;
          destruct (run l' t) as [l2 out2] end.
        cbn in *. subst out2. right. exists (p :: ps). now repeat split.
    + cbn [run step]. cbn in Ht.
      specialize (IH (rerender l) ms fin seen Hdraw Hfin Ht Hqueued Hqueued).
      destruct (run (rerender l) t) as [l2 out2]. exact IH.
Qed.

(** Before the press, re-renders of an idle overlay change nothing. *)
Lemma run_scheduled_gesture t : forall l down moves fin,
  isDrawing l = true -> endsGesture fin -> idle l ->
  pointerSteps t = gesture down moves fin ->
  emitted l t = [] \/
  exists pts, emitted l t = [inkStroke pts] /\ pts <> [] /\
              pts `sublist_of` Review.captured down moves.
Proof.
  induction t as [|st t IH]; intros l down moves fin Hdraw Hfin [Hs Hq] Ht; [discriminate|].
  destruct st; cbn in Ht; try discriminate.
  - injection Ht as Hrect He Ht. unfold emitted. cbn [run step].
    pose proof (run_scheduled t (handleMouseDown rect e l) moves fin
                  [getNormPoint down.1 down.2]) as H.
    unfold emitted in H. unfold handleMouseDown in *. rewrite Hdraw in *. cbn [negb] in *.
    destruct (run (queuePoints [getNormPoint rect e] l) t) as [l2 out2]. cbn [snd app].
    apply H; try assumption.
    + cbn. rewrite Hs. apply sublist_nil_l.
    + cbn. now rewrite Hrect, He.
  - unfold emitted. cbn [run step].
    assert (Hidle : idle (rerender l)) by (split; cbn; assumption).
    specialize (IH (rerender l) down moves fin Hdraw Hfin Hidle Ht). unfold emitted in IH.
    destruct (run (rerender l) t) as [l2 out2]. exact IH.
Qed.

(** C1, as the code has it: in drawing mode a gesture whose pointer
    events are each followed by a re-render hands exactly one stroke to
    [onDrawEnd], whose points are the captured points in capture order (at
    least the press point).  Whatever the re-renders, a gesture started on an
    idle overlay hands over at most one stroke, made of a subsequence of the
    captured points in capture order; of moves handled in one batch only
    the last is kept.  A release or leave on an idle overlay hands over
    nothing, and [drawStroke] draws nothing for fewer than two points. *)
Theorem gesture_emits_captured (l : Live) (down : DOMRect * MouseEvent)
  (moves : list (DOMRect * MouseEvent)) (fin : Step) :
  isDrawing l = true -> endsGesture fin ->
  emitted l (rendered (gesture down moves fin)) = [inkStroke (Review.captured down moves)] /\
  length (Review.captured down moves) = S (length moves) /\
  (idle l -> forall t, pointerSteps t = gesture down moves fin ->
     emitted l t = [] \/
     exists pts, emitted l t = [inkStroke pts] /\ pts <> [] /\
                 pts `sublist_of` Review.captured down moves) /\
  (forall batch m,
     emitted l ([Down (fst down) (snd down); Rerender]
                ++ map (fun m => Move (fst m) (snd m)) (batch ++ [m])
                ++ [Rerender; fin])
     = [inkStroke [getNormPoint (fst down) (snd down); getNormPoint (fst m) (snd m)]]) /\
  (idle l -> emitted l [fin] = []) /\
  (forall w h pts, (length pts < 2)%nat -> drawStroke w h (inkStroke pts) = []).
Proof.
  intros Hdraw Hfin.
  split; [unfold emitted; now rewrite (run_rendered_gesture l down moves fin Hdraw Hfin)|].
  split; [unfold Review.captured; now rewrite length_map|].
  split; [intros Hidle t Ht; now apply (run_scheduled_gesture t l down moves fin)|].
  split; [|split].
  - intros batch m. unfold emitted. cbn [app run step]. unfold handleMouseDown.
    rewrite Hdraw. cbn [negb].
    rewrite run_batch; [|exact Hdraw|discriminate].
    destruct Hfin as [-> | ->]; cbn [run step]; unfold handleMouseUp; cbn; rewrite Hdraw;
      reflexivity.
  - intros [Hs _]. unfold emitted. destruct Hfin as [-> | ->]; cbn [run step];
      unfold handleMouseUp; rewrite Hs, Hdraw; reflexivity.
  - intros w h [|p [|q pts]] Hlen; try reflexivity. simpl in Hlen. lia.
Qed.

Lemma gesture_emits_captured_witness :
  let r := mkRect 0 0 200 100 in
  let l := ofState (Review.clickDraw (Review.initialState (Store.seedProject 0) false)) in
  emitted l (rendered (gesture (r, mkMouse 40 40)
                         [(r, mkMouse 60 40); (r, mkMouse 60 50)] Leave))
  = [inkStroke [mkPoint (40 / 200) (40 / 100); mkPoint (60 / 200) (40 / 100);
                mkPoint (60 / 200) (50 / 100)]] /\
  emitted l [Down r (mkMouse 40 40); Rerender; Move r (mkMouse 60 40);
             Move r (mkMouse 60 50); Rerender; Up]
  = [inkStroke [mkPoint (40 / 200) (40 / 100); mkPoint (60 / 200) (50 / 100)]].
Proof.
  intros r l.
  pose proof (gesture_emits_captured l (r, mkMouse 40 40)
                [(r, mkMouse 60 40); (r, mkMouse 60 50)] Leave eq_refl
                (or_intror eq_refl)) as (H & _).
  pose proof (gesture_emits_captured l (r, mkMouse 40 40) [] Up eq_refl
                (or_introl eq_refl)) as (_ & _ & _ & Hbatch & _).
  split; [exact H|]. exact (Hbatch [(r, mkMouse 60 40)] (r, mkMouse 60 50)).
Defined.

End BatchedFacts.

(** ** The capture handlers *)

Section CaptureFacts.
Import Geometry Store Whiteboard Review.

(** While drawing mode is off no event hands a stroke over. *)
Lemma step_disabled_emits_nothing s d ev :
  isDrawingMode s = false -> snd (step (s, d) ev) = [].
Proof.
  intros H. destruct ev; cbn [step]; try reflexivity.
  - unfold handleMouseUp. rewrite H. reflexivity.
  - unfold handleMouseUp. rewrite H. reflexivity.
Qed.

(** C1 as stated fails: a click (press and release, no move) captures one
    point and still hands a stroke over; posted with a note, the one-point
    stroke is stored with the comment. *)
Lemma click_emits_dot_counterexample :
  let r := mkRect 0 0 200 100 in
  let s := clickDraw (initialState (seedProject 0) false) in
  let click := gesture (r, mkMouse 100 50) [] MouseUp in
  length (captured (r, mkMouse 100 50) []) = 1%nat /\
  emitted (s, MOCK_DB 0) click = [inkStroke [mkPoint (100 / 200) (50 / 100)]] /\
  map drawingData
    (commentsOf "proj_1"
       (snd (fst (run (s, MOCK_DB 0) (click ++ [ChangeText "here"; SubmitComment 7 7])))))
  = [drawingData (seedComment 0);
     Some [inkStroke [mkPoint (100 / 200) (50 / 100)]]].
Proof.
  cbv zeta. split; [reflexivity|]. split; reflexivity.
Qed.

(** C6, at the failing input: with a gesture in progress, closing drawing
    mode and opening it again leaves [currentPoints] as it was, and the
    next release or leave hands over a stroke made of the points captured
    before drawing mode was closed. *)
Theorem stale_points_emitted_after_reenable (s : State) (d : DB) (fin : Event) :
  isDrawingMode s = true -> currentPoints s <> [] -> endsGesture fin ->
  emitted (s, d) [ClickCloseDraw] = [] /\
  currentPoints (fst (fst (run (s, d) [ClickCloseDraw; ClickDraw]))) = currentPoints s /\
  emitted (s, d) [ClickCloseDraw; ClickDraw; fin] = [inkStroke (currentPoints s)].
Proof.
  intros Hdraw Hne Hfin. unfold emitted.
  destruct s as [pr ed ct pl dm ds txt act pts]. cbn in Hdraw, Hne. subst dm.
  destruct pts as [|p ps]; [congruence|].
  destruct Hfin as [-> | ->]; destruct pl; repeat split.
Qed.

Lemma stale_points_emitted_after_reenable_witness :
  let r := mkRect 0 0 200 100 in
  let s0 := initialState (seedProject 0) false in
  emitted (s0, MOCK_DB 0)
    [ClickDraw; MouseDown r (mkMouse 40 40); MouseMove r (mkMouse 60 40);
     ClickCloseDraw; ClickDraw; MouseMove r (mkMouse 60 50); MouseLeave]
  = [inkStroke [mkPoint (40 / 200) (40 / 100); mkPoint (60 / 200) (40 / 100);
                mkPoint (60 / 200) (50 / 100)]] /\
  emitted (fst (run (s0, MOCK_DB 0)
                  [ClickDraw; MouseDown r (mkMouse 40 40); MouseMove r (mkMouse 60 40)]))
    [ClickCloseDraw; ClickDraw; MouseUp]
  = [inkStroke [mkPoint (40 / 200) (40 / 100); mkPoint (60 / 200) (40 / 100)]].
Proof.
  intros r s0. split; [reflexivity|].
  refine (proj2 (proj2 (stale_points_emitted_after_reenable
    (fst (fst (run (s0, MOCK_DB 0)
      [ClickDraw; MouseDown r (mkMouse 40 40); MouseMove r (mkMouse 60 40)])))
    (MOCK_DB 0) MouseUp _ _ _))).
  - reflexivity.
  - discriminate.
  - left. reflexivity.
Defined.

End CaptureFacts.

(** ** The summary guard *)

Section SummaryFacts.
Import AI.

Lemma filter_unresolved_nil (cs : list Comment) :
  (forall c, c ∈ cs -> resolved c = true) ->
  List.filter (fun c => negb (resolved c)) cs = [].
Proof.
  induction cs as [|c cs IH]; intros H; [reflexivity|].
  cbn [List.filter]. rewrite (H c) by left. cbn [negb].
  apply IH. intros c' Hc'. apply H. now right.
Qed.

(** C10: with a non-empty API key and every comment resolved (the empty
    list included) the summary is the fixed congratulation and no request is
    issued, whatever the service would answer; with an empty key the
    configuration error is returned first, again without a request. *)
Theorem summarizeFeedback_all_resolved (key : string)
  (generateContent : Request -> option string) (cs : list Comment) (title : string) :
  (forall c, c ∈ cs -> resolved c = true) ->
  (key <> ""%string ->
   summarizeFeedback key generateContent cs title
   = ("All feedback resolved! Good job."%string, [])) /\
  (key = ""%string ->
   summarizeFeedback key generateContent cs title
   = ("Configuration Error: API_KEY is missing."%string, [])).
Proof.
  intros Hall. unfold summarizeFeedback. split.
  - intros Hkey. destruct key as [|a key]; [congruence|]. cbn [Review.truthy negb].
    now rewrite (filter_unresolved_nil cs Hall).
  - intros ->. reflexivity.
Qed.

Lemma summarizeFeedback_all_resolved_witness :
  summarizeFeedback "k3y" (fun _ => Some "unused"%string)
    [Store.setResolvedField true (Store.seedComment 0)] "Demo"
  = ("All feedback resolved! Good job."%string, []).
Proof.
  refine (proj1 (summarizeFeedback_all_resolved "k3y" (fun _ => Some "unused"%string)
                   [Store.setResolvedField true (Store.seedComment 0)] "Demo" _) _).
  - intros c Hc. apply list_elem_of_singleton in Hc. now subst c.
  - discriminate.
Defined.

(** With one unresolved comment and a key, one request goes out. *)
Example summarizeFeedback_unresolved_requests :
  snd (summarizeFeedback "k3y" (fun _ => None) [Store.seedComment 0] "Demo")
  = [ {| model := "gemini-2.5-flash"; videoTitle := "Demo";
         feedbackData := [ {| time := "0:05"; author := "Client A";
                              ftext := "Can we make the grass greener here?" |} ] |} ].
Proof. reflexivity. Qed.

End SummaryFacts.

(** * Further properties of the store *)

Section StoreComposition.
Import Store.

(** [findIndex] looks at ids only. *)
Lemma findIndex_alter cid f (cs : list Comment) i :
  (forall c, id (f c) = id c) ->
  findIndex cid (alter f i cs) = findIndex cid cs.
Proof.
  intros Hf. revert i. induction cs as [|c cs IH]; intros [|i]; simpl;
    rewrite ?Hf; try reflexivity.
  destruct (String.eqb (id c) cid); [reflexivity|]. f_equal. apply IH.
Qed.

Lemma setResolvedField_resolved c : setResolvedField (resolved c) c = c.
Proof. now destruct c. Qed.

Lemma resolveComment_found pid cid r d cs idx :
  comments d !! pid = Some cs -> findIndex cid cs = Some idx ->
  resolveComment pid cid r d
  = Fulfilled {| projects := projects d;
                 comments := <[pid := alter (setResolvedField r) idx cs]> (comments d) |}.
Proof. intros H1 H2. unfold resolveComment. now rewrite H1, H2. Qed.

(** The last write wins: a second [resolveComment] on the same comment
    makes the first one unobservable, repeating a call changes nothing, and
    writing back the flag the comment had restores the database. *)
Theorem resolveComment_last_write_wins (projectId commentId : string)
  (r1 r2 : bool) (d : DB) :
  exists d1,
    resolveComment projectId commentId r1 d = Fulfilled d1 /\
    resolveComment projectId commentId r2 d1 = resolveComment projectId commentId r2 d /\
    resolveComment projectId commentId r1 d1 = Fulfilled d1 /\
    (forall i c, findIndex commentId (commentsOf projectId d) = Some i ->
                 commentsOf projectId d !! i = Some c ->
                 resolveComment projectId commentId (resolved c) d1 = Fulfilled d).
Proof.
  unfold commentsOf.
  destruct (comments d !! projectId) as [cs|] eqn:Hcs.
  2:{ exists d. unfold resolveComment. rewrite Hcs. repeat split. }
  destruct (findIndex commentId cs) as [idx|] eqn:Hidx.
  2:{ exists d. unfold resolveComment. rewrite Hcs, Hidx. repeat split. }
  eexists. split; [exact (resolveComment_found _ _ r1 _ cs idx Hcs Hidx)|].
  assert (Hagain : forall r r',
    resolveComment projectId commentId r
      {| projects := projects d;
         comments := <[projectId := alter (setResolvedField r') idx cs]> (comments d) |}
    = Fulfilled {| projects := projects d;
                   comments := <[projectId := alter (setResolvedField r) idx cs]> (comments d) |}).
  { intros r r'.
    rewrite (resolveComment_found _ _ r _ (alter (setResolvedField r') idx cs) idx).
    - cbn [projects comments]. rewrite insert_insert_eq, list_alter_alter_eq.
      reflexivity.
    - cbn [comments]. apply lookup_insert_eq.
    - now rewrite findIndex_alter. }
  split; [|split].
  - rewrite Hagain. symmetry. exact (resolveComment_found _ _ r2 _ cs idx Hcs Hidx).
  - apply Hagain.
  - simpl. intros i c Hi Hc. rewrite Hidx in Hi. injection Hi as <-. rewrite Hagain. f_equal.
    assert (Halt : alter (setResolvedField (resolved c)) idx cs = cs).
    { apply list_eq. intros j. destruct (decide (j = idx)) as [->|Hne].
      - rewrite list_lookup_alter_eq, Hc. simpl. now rewrite setResolvedField_resolved.
      - now rewrite list_lookup_alter_ne by congruence. }
    rewrite Halt, insert_id by exact Hcs. now destruct d.
Qed.

Lemma resolveComment_last_write_wins_witness :
  exists d1,
    resolveComment "proj_1" "c1" true (MOCK_DB 0) = Fulfilled d1 /\
    resolveComment "proj_1" "c1" false d1 = Fulfilled (MOCK_DB 0).
Proof.
  destruct (resolveComment_last_write_wins "proj_1" "c1" true false (MOCK_DB 0))
    as (d1 & H1 & _ & _ & Hback).
  exists d1. split; [exact H1|].
  apply (Hback 0%nat (seedComment 0)); reflexivity.
Defined.

(** Sorting two arrays that agree on ids and timestamps position by
    position moves the same positions. *)
Lemma sortInsert_sameButResolved x x' l l' :
  sameButResolved x x' -> Forall2 sameButResolved l l' ->
  Forall2 sameButResolved (sortInsert byTimestamp x l) (sortInsert byTimestamp x' l').
Proof.
  intros Hx Hl. induction Hl as [|y y' l l' Hy Hl IH]; simpl.
  - constructor; [exact Hx|constructor].
  - assert (E : byTimestamp x' y' = byTimestamp x y).
    { unfold byTimestamp. destruct Hx as (_ & _ & _ & _ & -> & _).
      now destruct Hy as (_ & _ & _ & _ & -> & _). }
    rewrite E. destruct (Qle_bool (byTimestamp x y) 0).
    + constructor; [exact Hx|]. constructor; assumption.
    + constructor; assumption.
Qed.

Lemma sort_sameButResolved l l' :
  Forall2 sameButResolved l l' ->
  Forall2 sameButResolved (sort byTimestamp l) (sort byTimestamp l').
Proof.
  induction 1; simpl; [constructor|]. now apply sortInsert_sameButResolved.
Qed.

Lemma sameButResolved_refl c : sameButResolved c c.
Proof. repeat split. Qed.

Lemma alter_sameButResolved r i (cs : list Comment) :
  Forall2 sameButResolved cs (alter (setResolvedField r) i cs).
Proof.
  revert i. induction cs as [|c cs IH]; intros [|i]; simpl; constructor;
    try apply sameButResolved_refl; try apply IH.
  - repeat split.
  - clear. induction cs; constructor; [apply sameButResolved_refl|assumption].
Qed.

Lemma markerPosition_sameButResolved c c' duration :
  sameButResolved c c' ->
  Timeline.markerPosition c' duration = Timeline.markerPosition c duration.
Proof.
  intros (_ & _ & _ & _ & H & _). unfold Timeline.markerPosition. now rewrite H.
Qed.

(** Resolving never reorders what subscribers receive: for every project
    the delivered sequence before and after agree position by position on
    everything but [resolved], so list entries and scrubber markers stay
    where they were. *)
Theorem resolveComment_keeps_order (projectId commentId : string) (r : bool)
  (d : DB) (q : string) :
  exists d',
    resolveComment projectId commentId r d = Fulfilled d' /\
    Facts.sameButResolvedAll (loadComments q d) (loadComments q d') /\
    map id (loadComments q d') = map id (loadComments q d) /\
    (forall duration,
       Timeline.markerPositions (loadComments q d') duration
       = Timeline.markerPositions (loadComments q d) duration).
Proof.
  assert (Hgen : forall d', Facts.sameButResolvedAll (loadComments q d) (loadComments q d') ->
    map id (loadComments q d') = map id (loadComments q d) /\
    (forall duration,
       Timeline.markerPositions (loadComments q d') duration
       = Timeline.markerPositions (loadComments q d) duration)).
  { intros d' H. unfold Facts.sameButResolvedAll, Timeline.markerPositions in *.
    induction H as [|c c' l l' Hc Hl IH]; [now split|].
    destruct IH as [IH1 IH2]. split.
    - simpl. f_equal; [apply Hc|exact IH1].
    - intros duration. simpl. f_equal; [now apply markerPosition_sameButResolved|apply IH2]. }
  assert (Hrefl : forall l, Forall2 sameButResolved l l).
  { induction l; constructor; [apply sameButResolved_refl|assumption]. }
  unfold resolveComment.
  destruct (comments d !! projectId) as [cs|] eqn:Hcs.
  2:{ exists d. split; [reflexivity|]. split; [apply Hrefl|]. apply Hgen, Hrefl. }
  destruct (findIndex commentId cs) as [idx|] eqn:Hidx.
  2:{ exists d. split; [reflexivity|]. split; [apply Hrefl|]. apply Hgen, Hrefl. }
  eexists. split; [reflexivity|].
  match goal with |- ?P /\ _ => assert (Hsame : P) end.
  { unfold Facts.sameButResolvedAll, loadComments, commentsOf. cbn [comments].
    destruct (decide (q = projectId)) as [->|Hne].
    - rewrite lookup_insert_eq, Hcs. simpl.
      apply sort_sameButResolved, alter_sameButResolved.
    - rewrite lookup_insert_ne by congruence. apply Hrefl. }
  split; [exact Hsame|]. now apply Hgen.
Qed.

End StoreComposition.

Section StoreGrowth.
Import Store.

Lemma atTime_app t l1 l2 : atTime t (l1 ++ l2) = atTime t l1 ++ atTime t l2.
Proof. apply List.filter_app. Qed.

(** A posted comment reaches the project's subscribers and nobody else:
    the delivered sequence gains exactly the new comment, placed after the
    comments already at the same video time; other projects' sequences and
    every project list are as before. *)
Theorem addComment_visible (projectId : string) (draft : CommentDraft)
  (now1 now2 : Z) (d : DB) :
  let c := newComment draft now1 now2 in
  let d' := dbAfter d (addComment projectId draft now1 now2 d) in
  Permutation (loadComments projectId d') (c :: loadComments projectId d) /\
  (forall t, atTime t (loadComments projectId d')
             = atTime t (loadComments projectId d)
               ++ (if Qeq_bool (timestamp c) t then [c] else [])) /\
  (forall q, q <> projectId -> loadComments q d' = loadComments q d) /\
  (forall u, loadProjects u d' = loadProjects u d).
Proof.
  intros c d'. subst d'. cbn [addComment dbAfter]. fold c.
  unfold loadComments at 1 3. rewrite commentsOf_insert.
  split; [|split; [|split]].
  - rewrite sort_perm. unfold loadComments. rewrite sort_perm.
    now rewrite Permutation_app_comm.
  - intros t. unfold loadComments. rewrite !sort_atTime, atTime_app. reflexivity.
  - intros q Hq. unfold loadComments, commentsOf. cbn [comments].
    now rewrite lookup_insert_ne by congruence.
  - reflexivity.
Qed.

(** [findIndex] on an array extended at the end. *)
Lemma findIndex_snoc_fresh cid (cs : list Comment) c :
  (forall x, x ∈ cs -> id x <> cid) -> id c = cid ->
  findIndex cid (cs ++ [c]) = Some (length cs).
Proof.
  intros Hfresh Hid. induction cs as [|x cs IH]; simpl.
  - apply String.eqb_eq in Hid. now rewrite Hid.
  - assert (Hx : id x <> cid) by (apply Hfresh; left).
    apply String.eqb_neq in Hx. rewrite Hx, IH; [reflexivity|].
    intros y Hy. apply Hfresh. now right.
Qed.

(** Posting and then resolving by the returned id reaches the posted
    comment, provided no stored comment of the project already carries that
    id: the array is the old one followed by the new comment with the
    requested flag. *)
Theorem addComment_then_resolve (projectId : string) (draft : CommentDraft)
  (now1 now2 : Z) (r : bool) (d : DB) :
  (forall x, x ∈ commentsOf projectId d -> id x <> id (newComment draft now1 now2)) ->
  let c := newComment draft now1 now2 in
  let d1 := dbAfter d (addComment projectId draft now1 now2 d) in
  exists d2,
    resolveComment projectId (id c) r d1 = Fulfilled d2 /\
    commentsOf projectId d2 = commentsOf projectId d ++ [setResolvedField r c] /\
    (forall q, q <> projectId -> comments d2 !! q = comments d !! q).
Proof.
  intros Hfresh c d1. subst d1. cbn [addComment dbAfter]. fold c.
  eexists. split.
  - apply (resolveComment_found _ _ r _ (commentsOf projectId d ++ [c])
             (length (commentsOf projectId d))).
    + cbn [comments]. apply lookup_insert_eq.
    + now apply findIndex_snoc_fresh.
  - split.
    + rewrite commentsOf_insert.
      replace (length (commentsOf projectId d))
        with (length (commentsOf projectId d) + 0)%nat by lia.
      now rewrite alter_app_r.
    + intros q Hq. cbn [comments]. now rewrite !lookup_insert_ne by congruence.
Qed.

Lemma addComment_then_resolve_witness :
  exists d2,
    resolveComment "proj_1" "c_7" true
      (dbAfter (MOCK_DB 0)
         (addComment "proj_1" (mkDraft "guest" "Guest Client" "louder" 12 false None) 7 8 (MOCK_DB 0)))
    = Fulfilled d2 /\
    map resolved (commentsOf "proj_1" d2) = [false; true].
Proof.
  destruct (addComment_then_resolve "proj_1"
              (mkDraft "guest" "Guest Client" "louder" 12 false None) 7 8 true (MOCK_DB 0))
    as (d2 & H1 & H2 & _).
  - intros x Hx. vm_compute in Hx. apply list_elem_of_singleton in Hx. subst x. discriminate.
  - exists d2. split; [exact H1|]. rewrite H2. reflexivity.
Defined.

(** Comment ids are made from the first clock reading alone: two new
    comments carry the same id exactly when those readings are equal,
    whatever the drafts. *)
Theorem newComment_id_collision (draft1 draft2 : CommentDraft) (n1 m1 n2 m2 : Z) :
  id (newComment draft1 n1 m1) = id (newComment draft2 n2 m2) <-> n1 = n2.
Proof.
  cbn [newComment id]. split.
  - intros H.
    change (String "c" (String "_" (pretty n1)) = String "c" (String "_" (pretty n2))) in H.
    injection H as H. exact (pretty_Z_inj _ _ H).
  - now intros ->.
Qed.

(** A comment that sits behind another comment with the same id is out of
    reach: no [resolveComment] call, whatever its arguments, changes it. *)
Theorem resolveComment_shadowed (projectId : string) (d : DB) (i j : nat)
  (ci cj : Comment) (commentId : string) (r : bool) :
  (i < j)%nat ->
  commentsOf projectId d !! i = Some ci ->
  commentsOf projectId d !! j = Some cj ->
  id ci = id cj ->
  exists d',
    resolveComment projectId commentId r d = Fulfilled d' /\
    commentsOf projectId d' !! j = Some cj.
Proof.
  intros Hij Hi Hj Hid. unfold resolveComment, commentsOf in *.
  destruct (comments d !! projectId) as [cs|] eqn:Hcs; [|discriminate].
  simpl in Hi, Hj.
  destruct (findIndex commentId cs) as [idx|] eqn:Hidx.
  2:{ exists d. rewrite Hcs. now split. }
  eexists. split; [reflexivity|]. cbn [comments]. rewrite lookup_insert_eq. simpl.
  destruct (findIndex_Some _ _ _ Hidx) as (c0 & Hc0 & Hc0id & Hfirst).
  rewrite list_lookup_alter_ne; [exact Hj|].
  intros ->. apply (Hfirst i ci Hij Hi). congruence.
Qed.

Lemma resolveComment_shadowed_witness :
  let d1 := dbAfter (MOCK_DB 0)
              (addComment "proj_1" (mkDraft "guest" "Guest Client" "one" 3 false None) 7 7 (MOCK_DB 0)) in
  let d2 := dbAfter d1
              (addComment "proj_1" (mkDraft "guest" "Guest Client" "two" 4 false None) 7 7 d1) in
  exists d',
    resolveComment "proj_1" "c_7" true d2 = Fulfilled d' /\
    resolved <$> commentsOf "proj_1" d' !! 2%nat = Some false.
Proof.
  intros d1 d2.
  destruct (resolveComment_shadowed "proj_1" d2 1 2
              (newComment (mkDraft "guest" "Guest Client" "one" 3 false None) 7 7)
              (newComment (mkDraft "guest" "Guest Client" "two" 4 false None) 7 7)
              "c_7" true) as (d' & H1 & H2); try reflexivity.
  - lia.
  - exists d'. split; [exact H1|]. now rewrite H2.
Defined.

End StoreGrowth.

(** * Projects: creation and lookup *)

Section ProjectFacts.
Import Store Projects.

Lemma assign_fresh {V : Type} key (v : V) o :
  key ∉ keys o -> assign key v o = o ++ [(key, v)].
Proof.
  induction o as [|[k w] o IH]; intros Hk; [reflexivity|].
  simpl. assert (Hne : k <> key) by (intros ->; apply Hk; left).
  apply String.eqb_neq in Hne. rewrite Hne, IH; [reflexivity|].
  intros H. apply Hk. now right.
Qed.

Lemma assign_keys_existing {V : Type} key (v : V) o :
  key ∈ keys o -> keys (assign key v o) = keys o.
Proof.
  induction o as [|[k w] o IH]; intros Hk; [inversion Hk|].
  simpl. destruct (String.eqb k key) eqn:E; [reflexivity|].
  simpl. f_equal. apply IH. apply String.eqb_neq in E.
  apply elem_of_cons in Hk as [Hk|Hk]; [simpl in Hk; congruence|exact Hk].
Qed.

Lemma assign_elem {V : Type} key (v : V) o : v ∈ values (assign key v o).
Proof.
  induction o as [|[k w] o IH]; simpl; [left|].
  destruct (String.eqb k key); simpl; [left|now right].
Qed.

Lemma lookupKey_assign {V : Type} key (v : V) o k :
  lookupKey k (assign key v o) = if String.eqb key k then Some v else lookupKey k o.
Proof.
  induction o as [|[k0 w] o IH]; simpl.
  - destruct (String.eqb key k); reflexivity.
  - destruct (String.eqb k0 key) eqn:E; simpl.
    + apply String.eqb_eq in E. subst k0. now destruct (String.eqb key k).
    + rewrite IH. destruct (String.eqb k0 k) eqn:E2; [|reflexivity].
      apply String.eqb_eq in E2. subst k0. apply String.eqb_neq in E.
      assert (Hne : key <> k) by congruence.
      apply String.eqb_neq in Hne. now rewrite Hne.
Qed.

Lemma assign_in_place {V : Type} key (v : V) o :
  key ∈ keys o ->
  exists before old after,
    o = before ++ (key, old) :: after /\ (key ∉ keys before) /\
    assign key v o = before ++ (key, v) :: after.
Proof.
  induction o as [|[k w] o IH]; intros Hk; [inversion Hk|].
  simpl. destruct (String.eqb k key) eqn:E.
  - apply String.eqb_eq in E. subst k. exists [], w, o. repeat split.
    intros H. inversion H.
  - apply String.eqb_neq in E.
    apply elem_of_cons in Hk as [Hk|Hk]; [simpl in Hk; congruence|].
    destruct (IH Hk) as (before & old & after & -> & Hnot & ->).
    exists ((k, w) :: before), old, after. repeat split.
    intros H. apply elem_of_cons in H as [H|H]; [simpl in H; congruence|contradiction].
Qed.

Lemma loadProjects_elem u p (d : DB) :
  p ∈ values (projects d) ->
  String.eqb (p_editorId p) u || String.eqb (p_id p) "proj_1" = true ->
  p ∈ loadProjects u d.
Proof.
  intros Hin Hf. unfold loadProjects. apply list_elem_of_In, List.filter_In.
  split; [now apply list_elem_of_In|exact Hf].
Qed.

(** What [createProject] leaves behind: the project is stored under its
    id, every other id reads as before, it is in its editor's list and has
    no comments, even when the id was already taken (the comments stored
    under it are then dropped and the entry replaced in place, the entries
    before and after it untouched); under a fresh id the project is appended
    and every user's list grows by it exactly when the user is its editor. *)
Theorem createProject_effect (editorId title videoUrl : string)
  (status : ProjectStatus) (duration : Q) (now1 now2 : Z) (rnd : string) (d : DB) :
  let pid := ("proj_" +:+ pretty now1)%string in
  let P := mkProject pid rnd editorId title videoUrl status duration now2 in
  let d' := dbAfter d (createProject editorId title videoUrl status duration now1 now2 rnd d) in
  createProject editorId title videoUrl status duration now1 now2 rnd d = Fulfilled (d', P) /\
  lookupKey pid (projects d') = Some P /\
  (forall k, k <> pid -> lookupKey k (projects d') = lookupKey k (projects d)) /\
  P ∈ loadProjects editorId d' /\
  loadComments pid d' = [] /\
  (forall q, q <> pid -> commentsOf q d' = commentsOf q d) /\
  (pid ∉ keys (projects d) ->
   forall u, loadProjects u d'
             = loadProjects u d
               ++ (if String.eqb editorId u || String.eqb pid "proj_1" then [P] else [])) /\
  (pid ∈ keys (projects d) ->
   exists before old after,
     projects d = before ++ (pid, old) :: after /\ (pid ∉ keys before) /\
     projects d' = before ++ (pid, P) :: after).
Proof.
  intros pid P d'. subst d'. cbn [createProject dbAfter]. fold pid. fold P.
  split; [reflexivity|]. split; [|split; [|split; [|split; [|split; [|split]]]]].
  - cbn [projects]. rewrite lookupKey_assign. now rewrite String.eqb_refl.
  - intros k Hk. cbn [projects]. rewrite lookupKey_assign.
    apply not_eq_sym, String.eqb_neq in Hk. now rewrite Hk.
  - apply loadProjects_elem; [apply assign_elem|].
    cbn [p_editorId P]. now rewrite String.eqb_refl.
  - unfold loadComments. now rewrite commentsOf_insert.
  - intros q Hq. unfold commentsOf. cbn [comments].
    now rewrite lookup_insert_ne by congruence.
  - intros Hfresh u. unfold loadProjects, values. cbn [projects].
    rewrite assign_fresh by exact Hfresh.
    rewrite map_app, List.filter_app. reflexivity.
  - intros Hin. cbn [projects]. now apply assign_in_place.
Qed.

Lemma createProject_effect_witness :
  let d := MOCK_DB 0 in
  let d' := dbAfter d (createProject "user_ab" "Cut 1" "https://v/1.mp4" ready 0 5 6 "x7" d) in
  map p_id (loadProjects "user_ab" d') = ["proj_1"; "proj_5"]%string /\
  map p_id (loadProjects "user_cd" d') = ["proj_1"]%string.
Proof.
  intros d d'.
  pose proof (createProject_effect "user_ab" "Cut 1" "https://v/1.mp4" ready 0 5 6 "x7" d)
    as (_ & _ & _ & _ & _ & _ & Hfresh & _).
  assert (Hk : ("proj_" +:+ pretty 5)%string ∉ keys (projects d)).
  { intros H. vm_compute in H. apply list_elem_of_singleton in H. discriminate. }
  split.
  - unfold d'. rewrite (Hfresh Hk "user_ab"%string). reflexivity.
  - unfold d'. rewrite (Hfresh Hk "user_cd"%string). reflexivity.
Defined.

Lemma find_snoc_first {A : Type} (f : A -> bool) l x :
  (forall y, y ∈ l -> f y = false) -> f x = true -> List.find f (l ++ [x]) = Some x.
Proof.
  intros Hl Hx. induction l as [|y l IH]; simpl; [now rewrite Hx|].
  rewrite (Hl y) by left. apply IH. intros z Hz. apply Hl. now right.
Qed.

(** A project created under a fresh id, with an id and a public id that
    no stored project uses in either role, is found under both: the review
    page opened with either one subscribes to the project's own id, and
    [getProjectByPublicId] returns it. *)
Theorem createProject_then_lookup (editorId title videoUrl : string)
  (status : ProjectStatus) (duration : Q) (now1 now2 : Z) (rnd : string) (d : DB) :
  let pid := ("proj_" +:+ pretty now1)%string in
  let P := mkProject pid rnd editorId title videoUrl status duration now2 in
  let d' := dbAfter d (createProject editorId title videoUrl status duration now1 now2 rnd d) in
  pid ∉ keys (projects d) ->
  (forall p, p ∈ values (projects d) ->
     p_id p <> pid /\ p_publicId p <> pid /\ p_id p <> rnd /\ p_publicId p <> rnd) ->
  findProject pid d' = Some P /\
  findProject rnd d' = Some P /\
  getProjectByPublicId rnd d' = Some P /\
  subscriptionKey pid d' = pid /\
  subscriptionKey rnd d' = pid.
Proof.
  intros pid P d' Hfresh Hother. subst d'. cbn [createProject dbAfter]. fold pid. fold P.
  assert (Hvals : values (assign pid P (projects d)) = values (projects d) ++ [P]).
  { rewrite assign_fresh by exact Hfresh. unfold values. now rewrite map_app. }
  assert (H1 : findProject pid {| projects := assign pid P (projects d);
                                  comments := <[pid := []]> (comments d) |} = Some P).
  { unfold findProject. cbn [projects]. rewrite Hvals. apply find_snoc_first.
    - intros y Hy. destruct (Hother y Hy) as (Ha & Hb & _).
      apply String.eqb_neq in Ha, Hb. now rewrite Ha, Hb.
    - cbn [p_id P]. now rewrite String.eqb_refl. }
  assert (H2 : findProject rnd {| projects := assign pid P (projects d);
                                  comments := <[pid := []]> (comments d) |} = Some P).
  { unfold findProject. cbn [projects]. rewrite Hvals. apply find_snoc_first.
    - intros y Hy. destruct (Hother y Hy) as (_ & _ & Ha & Hb).
      apply String.eqb_neq in Ha, Hb. now rewrite Ha, Hb.
    - cbn [p_publicId P]. rewrite String.eqb_refl. apply orb_true_r. }
  split; [exact H1|]. split; [exact H2|]. split; [|split].
  - unfold getProjectByPublicId. cbn [projects]. rewrite Hvals. apply find_snoc_first.
    + intros y Hy. destruct (Hother y Hy) as (_ & _ & _ & Hb).
      now apply String.eqb_neq in Hb.
    + cbn [p_publicId P]. apply String.eqb_refl.
  - unfold subscriptionKey. now rewrite H1.
  - unfold subscriptionKey. now rewrite H2.
Qed.

Lemma createProject_then_lookup_witness :
  let d := MOCK_DB 0 in
  let d' := dbAfter d (createProject "user_ab" "Cut 1" "https://v/1.mp4" ready 0 5 6 "x7" d) in
  subscriptionKey "x7" d' = "proj_5"%string.
Proof.
  intros d d'.
  refine (proj2 (proj2 (proj2 (proj2
    (createProject_then_lookup "user_ab" "Cut 1" "https://v/1.mp4" ready 0 5 6 "x7" d _ _))))).
  - intros H. vm_compute in H. apply list_elem_of_singleton in H. discriminate.
  - intros p Hp. vm_compute in Hp. apply list_elem_of_singleton in Hp. subst p.
    repeat split; discriminate.
Defined.

(** Linking a video by URL from the dashboard: without a signed-in user or
    with an empty URL the store is untouched; otherwise the user's project
    list contains a ready project with that URL, duration 0 and no comments. *)
Theorem handleManualUrlSubmit_effect (manualUrl : string) (user : option string)
  (now1 now2 : Z) (rnd : string) (d : DB) :
  let d' := handleManualUrlSubmit manualUrl user now1 now2 rnd d in
  ((user = None \/ manualUrl = ""%string) -> d' = d) /\
  (forall userId, user = Some userId -> manualUrl <> ""%string ->
     exists P, P ∈ loadProjects userId d' /\
               p_videoUrl P = manualUrl /\ p_editorId P = userId /\
               p_title P = "Linked Video Project"%string /\
               p_status P = ready /\ p_duration P = 0%Q /\
               loadComments (p_id P) d' = []).
Proof.
  intros d'. subst d'. split.
  - intros [-> | ->]; [reflexivity|]. unfold handleManualUrlSubmit.
    now destruct user.
  - intros userId -> Hurl. unfold handleManualUrlSubmit.
    destruct manualUrl as [|a rest]; [congruence|]. cbn [Review.truthy negb].
    cbn [createProject dbAfter]. eexists. split.
    + apply loadProjects_elem; [apply assign_elem|].
      cbn [p_editorId]. now rewrite String.eqb_refl.
    + repeat split. unfold loadComments. cbn [p_id]. now rewrite commentsOf_insert.
Qed.

Lemma handleManualUrlSubmit_effect_witness :
  let d' := handleManualUrlSubmit "https://v/2.mp4" (Some "user_ab"%string) 5 6 "x7" (MOCK_DB 0) in
  (exists P, P ∈ loadProjects "user_ab" d' /\
             p_videoUrl P = "https://v/2.mp4"%string /\ loadComments (p_id P) d' = []) /\
  map p_id (loadProjects "user_ab" d') = ["proj_1"; "proj_5"]%string /\
  handleManualUrlSubmit "" (Some "user_ab"%string) 5 6 "x7" (MOCK_DB 0) = MOCK_DB 0.
Proof.
  intros d'. split; [|split; [reflexivity|]].
  - destruct (proj2 (handleManualUrlSubmit_effect "https://v/2.mp4"
                       (Some "user_ab"%string) 5 6 "x7" (MOCK_DB 0))
                "user_ab"%string eq_refl) as (P & Hin & Hurl & _ & _ & _ & _ & Hcs).
    + discriminate.
    + exists P. now repeat split.
  - apply (handleManualUrlSubmit_effect "" (Some "user_ab"%string) 5 6 "x7" (MOCK_DB 0)).
    right. reflexivity.
Defined.

End ProjectFacts.

(** * Markers and time labels *)

Section MarkerFacts.
Import Timeline.
#[local] Open Scope Q_scope.

Lemma markerPositions_sorted (l : list Comment) (duration : Q) :
  0 < orOne duration -> StronglySorted Store.tsLe l ->
  StronglySorted Qle (markerPositions l duration).
Proof.
  intros Hpos Hs. unfold markerPositions.
  induction Hs as [|c l Hs IH Hall]; simpl; constructor; [exact IH|].
  apply Forall_forall. intros p Hp.
  apply list_elem_of_In, in_map_iff in Hp as (c' & <- & Hc').
  apply list_elem_of_In in Hc'.
  pose proof (proj1 (Forall_forall _ _) Hall c' Hc') as Hle. clear Hall.
  unfold markerPosition, Store.tsLe in *.
  apply Qmult_le_compat_r; [exact Hle|].
  apply Qlt_le_weak, Qinv_lt_0_compat, Hpos.
Qed.

(** The markers of the delivered comments run left to right in list
    order, for every duration whose denominator is positive. *)
Theorem markers_left_to_right (projectId : string) (d : Store.DB) (duration : Q) :
  0 < orOne duration ->
  StronglySorted Qle (markerPositions (Store.loadComments projectId d) duration).
Proof.
  intros Hpos. apply markerPositions_sorted; [exact Hpos|]. apply sort_sorted.
Qed.

Lemma markers_left_to_right_witness :
  let d0 := Store.MOCK_DB 1000000 in
  let d1 := Store.dbAfter d0 (Store.addComment "proj_1" (mkDraft "guest" "Guest Client" "late" 300 false None) 1000100 1000100 d0) in
  let d2 := Store.dbAfter d1 (Store.addComment "proj_1" (mkDraft "guest" "Guest Client" "early" 3 false None) 1000200 1000200 d1) in
  map timestamp (Store.commentsOf "proj_1" d2) = [5.2; 300; 3] /\
  markerPositions (Store.loadComments "proj_1" d2) 600
  = [3 / 600; 5.2 / 600; 300 / 600] /\
  StronglySorted Qle (markerPositions (Store.loadComments "proj_1" d2) 600).
Proof.
  intros d0 d1 d2. split; [reflexivity|]. split; [reflexivity|].
  apply (markers_left_to_right "proj_1" d2 600). reflexivity.
Defined.

End MarkerFacts.

Section FormatFacts.
Import Format.

Lemma Qfloor_unique (x : Q) (k : Z) :
  (inject_Z k <= x)%Q -> (x < inject_Z (k + 1))%Q -> Qfloor x = k.
Proof.
  intros Hlo Hhi. pose proof (Qfloor_le x) as Hfl. pose proof (Qlt_floor x) as Hfu.
  assert (H1 : k < Qfloor x + 1).
  { rewrite Zlt_Qlt. eapply Qle_lt_trans; eassumption. }
  assert (H2 : Qfloor x < k + 1).
  { rewrite Zlt_Qlt. eapply Qle_lt_trans; eassumption. }
  lia.
Qed.

Lemma Qtrunc_nonneg (x : Q) : (0 <= x)%Q -> AI.Qtrunc x = Qfloor x.
Proof.
  destruct x as [n dn]. unfold Qle, AI.Qtrunc, Qfloor. simpl. intros H.
  apply Z.quot_div_nonneg; lia.
Qed.

Lemma Qfloor_div60 (s : Q) : (0 <= s)%Q -> Qfloor (s / 60) = Qfloor s / 60.
Proof.
  intros Hs. pose proof (Qfloor_le s) as Hfl. pose proof (Qlt_floor s) as Hfu.
  set (F := Qfloor s) in *.
  pose proof (Z.div_mod F 60 ltac:(lia)) as Hdm.
  pose proof (Z.mod_pos_bound F 60 ltac:(lia)) as Hmod.
  assert (H1 : (inject_Z (F / 60 * 60) <= inject_Z F)%Q) by (rewrite <- Zle_Qle; lia).
  assert (H2 : (inject_Z (F + 1) <= inject_Z ((F / 60 + 1) * 60))%Q)
    by (rewrite <- Zle_Qle; lia).
  rewrite inject_Z_mult in H1, H2. change (inject_Z 60) with 60%Q in H1, H2.
  apply Qfloor_unique.
  - apply Qle_shift_div_l; [reflexivity|]. lra.
  - apply Qlt_shift_div_r; [reflexivity|]. lra.
Qed.

Lemma padStart2_two_digits (z : Z) :
  0 <= z < 60 -> String.length (AI.padStart2 (pretty z)) = 2%nat.
Proof.
  intros Hz.
  assert (H : exists n, (n < 60)%nat /\ z = Z.of_nat n) by (exists (Z.to_nat z); lia).
  destruct H as (n & Hn & ->). clear Hz.
  do 60 (destruct n as [|n]; [reflexivity|]). lia.
Qed.

(** For a time from 0 to below 2^53 seconds, [formatTime] shows the whole
    seconds split into minutes and a two-character seconds field below 60:
    the label is determined by [floor(seconds)], as its quotient and
    remainder by 60.  A time that is not finite is shown as ["0:00"]. *)
Theorem formatTime_nonneg (seconds : Q) :
  (0 <= seconds)%Q -> (seconds < 9007199254740992)%Q ->
  minutesOf seconds = Qfloor seconds / 60 /\
  secondsOf seconds = Qfloor seconds mod 60 /\
  0 <= secondsOf seconds < 60 /\
  60 * minutesOf seconds + secondsOf seconds = Qfloor seconds /\
  String.length (AI.padStart2 (pretty (secondsOf seconds))) = 2%nat /\
  formatTime (Finite seconds)
  = (pretty (Qfloor seconds / 60) +:+ ":"
       +:+ AI.padStart2 (pretty (Qfloor seconds mod 60)))%string /\
  formatTime NotFinite = "0:00"%string.
Proof.
  intros Hs _.
  assert (Hm : minutesOf seconds = Qfloor seconds / 60) by now apply Qfloor_div60.
  assert (Hsec : secondsOf seconds = Qfloor seconds mod 60).
  { unfold secondsOf, AI.rem60.
    assert (H60 : (0 <= seconds / 60)%Q).
    { apply Qle_shift_div_l; [reflexivity|]. now rewrite Qmult_0_l. }
    rewrite (Qtrunc_nonneg _ H60), (Qfloor_div60 _ Hs).
    pose proof (Qfloor_le seconds) as Hfl. pose proof (Qlt_floor seconds) as Hfu.
    rewrite Z.mod_eq by lia. set (F := Qfloor seconds) in *. set (m := F / 60).
    apply Qfloor_unique.
    - unfold Z.sub. rewrite inject_Z_plus, inject_Z_opp, inject_Z_mult.
      change (inject_Z 60) with 60%Q. lra.
    - replace (F - 60 * m + 1) with (F + 1 - 60 * m) by lia.
      unfold Z.sub. rewrite !inject_Z_plus, inject_Z_opp, inject_Z_mult.
      rewrite inject_Z_plus in Hfu.
      change (inject_Z 60) with 60%Q. change (inject_Z 1) with 1%Q in *. lra. }
  pose proof (Z.mod_pos_bound (Qfloor seconds) 60 ltac:(lia)) as Hmod.
  pose proof (Z.div_mod (Qfloor seconds) 60 ltac:(lia)) as Hdm.
  split; [exact Hm|]. split; [exact Hsec|]. rewrite Hm, Hsec.
  split; [exact Hmod|]. split; [lia|]. split; [now apply padStart2_two_digits|].
  split; [|reflexivity]. unfold formatTime. now rewrite Hm, Hsec.
Qed.

Lemma formatTime_nonneg_witness :
  formatTime (Finite 596.5) = "9:56"%string.
Proof.
  assert (H : (0 <= 596.5)%Q) by (vm_compute; congruence).
  assert (H' : (596.5 < 9007199254740992)%Q) by reflexivity.
  rewrite (proj1 (proj2 (proj2 (proj2 (proj2 (proj2 (formatTime_nonneg 596.5 H H'))))))).
  reflexivity.
Defined.

End FormatFacts.

(** * The review page *)

Section ReviewFacts.
Import Geometry Store Whiteboard Review.

Lemma step_exclusive s d ev :
  Facts.exclusive s -> Facts.exclusive (fst (fst (step (s, d) ev))).
Proof.
  unfold Facts.exclusive. intros H.
  destruct s as [pr ed ct pl dm ds txt act pts]. cbn in H.
  destruct pl, dm; try discriminate H;
    destruct ev; cbn; try reflexivity;
    try (destruct pts; reflexivity);
    unfold handleSubmitComment; cbn;
    destruct pr; try reflexivity;
    match goal with |- context [negb ?b] => destruct b end; reflexivity.
Qed.

(** Playback and drawing mode are never on together: from a state where
    they are not, no sequence of page events reaches one where they are. *)
Theorem playing_excludes_drawing (evs : list Event) (s : State) (d : DB) :
  Facts.exclusive s -> Facts.exclusive (fst (fst (run (s, d) evs))).
Proof.
  revert s d. induction evs as [|ev evs IH]; intros s d H; [exact H|].
  cbn [run]. destruct (step (s, d) ev) as [[s1 d1] out1] eqn:E.
  pose proof (step_exclusive s d ev H) as H1. rewrite E in H1. cbn in H1.
  specialize (IH s1 d1 H1). destruct (run (s1, d1) evs) as [sd2 out2]. exact IH.
Qed.

Lemma playing_excludes_drawing_witness :
  Facts.exclusive
    (fst (fst (run (initialState (seedProject 0) true, MOCK_DB 0)
                 [TogglePlay; ClickDraw; TogglePlay; ClickDraw; SubmitComment 7 7]))).
Proof.
  apply (playing_excludes_drawing _ (initialState (seedProject 0) true) (MOCK_DB 0)).
  reflexivity.
Defined.

Lemma setCurrentPoints_same s : setCurrentPoints (currentPoints s) s = s.
Proof. now destruct s. Qed.

(** Outside drawing mode the canvas is inert: no sequence of pointer
    events changes the page state or hands a stroke over. *)
Theorem pointer_inert_when_disabled (evs : list Event) (s : State) (d : DB) :
  isDrawingMode s = false ->
  Forall (fun ev => Facts.isPointer ev = true) evs ->
  run (s, d) evs = (s, d, []).
Proof.
  intros Hoff Hall. induction Hall as [|ev evs Hev Hall IH]; [reflexivity|].
  cbn [run].
  assert (Hstep : step (s, d) ev = (s, d, [])).
  { destruct ev; try discriminate; cbn [step];
      unfold handleMouseDown, handleMouseMove, handleMouseUp; rewrite Hoff; cbn;
      now rewrite setCurrentPoints_same. }
  rewrite Hstep, IH. reflexivity.
Qed.

Lemma pointer_inert_when_disabled_witness :
  let r := mkRect 0 0 200 100 in
  let s := initialState (seedProject 0) false in
  run (s, MOCK_DB 0) [MouseDown r (mkMouse 40 40); MouseMove r (mkMouse 60 40); MouseUp]
  = (s, MOCK_DB 0, []).
Proof.
  intros r s.
  apply (pointer_inert_when_disabled _ s (MOCK_DB 0)); [reflexivity|].
  repeat constructor.
Defined.

Lemma trimStart_nil_iff l :
  trimStart l = [] <-> Forall (fun a => isWhiteSpace a = true) l.
Proof.
  induction l as [|a l IH]; simpl; [split; [constructor|reflexivity]|].
  destruct (isWhiteSpace a) eqn:E.
  - rewrite IH. split; [now constructor|now inversion 1].
  - split; [discriminate|]. inversion 1; congruence.
Qed.

Lemma trimStart_Forall l :
  Forall (fun a => isWhiteSpace a = true) (trimStart l)
  <-> Forall (fun a => isWhiteSpace a = true) l.
Proof.
  induction l as [|a l IH]; simpl; [reflexivity|].
  destruct (isWhiteSpace a) eqn:E; [|reflexivity].
  rewrite IH. split; [now constructor|now inversion 1].
Qed.

Lemma Forall_rev_iff {A : Type} (P : A -> Prop) l : Forall P (rev l) <-> Forall P l.
Proof.
  split; intros H.
  - rewrite <- (rev_involutive l). now apply Forall_rev.
  - now apply Forall_rev.
Qed.

(** [trim] leaves nothing exactly for the texts made of white space. *)
Lemma trim_empty_iff t : trim t = ""%string <-> Facts.blank t.
Proof.
  unfold trim, Facts.blank. set (l := list_ascii_of_string t).
  rewrite <- (trimStart_Forall l), <- (Forall_rev_iff _ (trimStart l)),
    <- trimStart_nil_iff.
  split.
  - intros H. destruct (rev (trimStart (rev (trimStart l)))) eqn:E; [|discriminate].
    apply (f_equal (@rev ascii)) in E. now rewrite rev_involutive in E.
  - now intros ->.
Qed.

(** Posting a comment: it is stored exactly when a project is loaded and
    the text has a character that is not white space.  The stored comment
    carries the text as typed (not trimmed), the current video time, the
    flag unresolved, and the session's strokes, or no drawing at all when
    there are none (never an empty array); the draft text, the strokes and
    drawing mode are then reset.  Otherwise nothing changes. *)
Theorem handleSubmitComment_effect (now1 now2 : Z) (s : State) (d : DB) :
  (forall p, project s = Some p -> ~ Facts.blank (commentText s) ->
     let c := newComment (draftOf s) now1 now2 in
     handleSubmitComment now1 now2 s d
     = (setDrawingMode false (setCurrentDrawings [] (setCommentText "" s)),
        dbAfter d (addComment (p_id p) (draftOf s) now1 now2 d)) /\
     commentsOf (p_id p) (snd (handleSubmitComment now1 now2 s d))
     = commentsOf (p_id p) d ++ [c] /\
     text c = commentText s /\ timestamp c = currentTime s /\ resolved c = false /\
     drawingData c = match currentDrawings s with
                     | [] => None
                     | _ :: _ => Some (currentDrawings s)
                     end /\
     drawingData c <> Some []) /\
  (project s = None \/ Facts.blank (commentText s) ->
   handleSubmitComment now1 now2 s d = (s, d)).
Proof.
  split.
  - intros p Hp Hblank c.
    assert (Ht : truthy (trim (commentText s)) = true).
    { destruct (trim (commentText s)) eqn:E; [|reflexivity].
      exfalso. apply Hblank, trim_empty_iff, E. }
    assert (Hrun : handleSubmitComment now1 now2 s d
                   = (setDrawingMode false (setCurrentDrawings [] (setCommentText "" s)),
                      dbAfter d (addComment (p_id p) (draftOf s) now1 now2 d))).
    { unfold handleSubmitComment. rewrite Hp, Ht. reflexivity. }
    split; [exact Hrun|]. rewrite Hrun. cbn [snd addComment dbAfter].
    split; [apply commentsOf_insert|].
    repeat split; subst c; cbn; destruct (currentDrawings s); try reflexivity; discriminate.
  - intros [Hnone|Hblank]; unfold handleSubmitComment.
    + now rewrite Hnone.
    + apply trim_empty_iff in Hblank. rewrite Hblank. now destruct (project s).
Qed.

Lemma handleSubmitComment_effect_witness :
  let s := mkState (Some (seedProject 0)) false 12 false false [] " cut here " None [] in
  map text (commentsOf "proj_1" (snd (handleSubmitComment 7 8 s (MOCK_DB 0))))
  = ["Can we make the grass greener here?"; " cut here "]%string.
Proof.
  intros s.
  pose proof (handleSubmitComment_effect 7 8 s (MOCK_DB 0)) as [H _].
  destruct (H (seedProject 0) eq_refl) as (_ & Hcs & _).
  - intros Hb. apply trim_empty_iff in Hb. discriminate.
  - cbn [p_id seedProject] in Hcs. rewrite Hcs. reflexivity.
Defined.

End ReviewFacts.

(** * The canvas and the selected comment *)

Section OverlayFacts.
Import Geometry Whiteboard Overlay.





Lemma drawStroke_degenerate w h s : drawable s = false -> drawStroke w h s = [].
Proof.
  unfold drawable, drawStroke. destruct (points s) as [|p0 [|p1 ps]]; try reflexivity.
  discriminate.
Qed.

Lemma concat_drawStroke_filter w h (ds : list Stroke) :
  concat (map (drawStroke w h) (List.filter drawable ds))
  = concat (map (drawStroke w h) ds).
Proof.
  induction ds as [|s ds IH]; [reflexivity|]. cbn [List.filter map concat].
  destruct (drawable s) eqn:E.
  - cbn [map concat]. now rewrite IH.
  - now rewrite (drawStroke_degenerate w h s E), IH.
Qed.

(** Strokes of fewer than two points leave no trace on the canvas: a
    frame is the same as the frame of the data with every such stroke
    removed, be it a session stroke, the stroke in progress or a stroke of
    the selected comment. *)
Theorem renderFrame_ignores_degenerate (w h : float) (drawingData : list Stroke)
  (currentPoints : list Point) (activeDrawing : option (list Stroke)) :
  renderFrame w h drawingData currentPoints activeDrawing
  = renderFrame w h (List.filter drawable drawingData)
      (if (2 <=? length currentPoints)%nat then currentPoints else [])
      (List.filter drawable <$> activeDrawing).
Proof.
  unfold renderFrame. do 2 f_equal. rewrite concat_drawStroke_filter. f_equal. f_equal.
  - destruct currentPoints as [|p [|q ps]]; reflexivity.
  - destruct activeDrawing as [ds|]; [|reflexivity]. cbn [fmap option_fmap option_map].
    now rewrite concat_drawStroke_filter.
Qed.

Lemma find_by_id_unique (comments : list Comment) c :
  c ∈ comments -> NoDup (map id comments) ->
  List.find (fun x => String.eqb (id x) (id c)) comments = Some c.
Proof.
  intros Hin Hnd. induction comments as [|x l IH]; [inversion Hin|].
  cbn [List.find]. apply NoDup_cons in Hnd as [Hx Hnd].
  apply elem_of_cons in Hin as [->|Hin]; [now rewrite String.eqb_refl|].
  destruct (String.eqb (id x) (id c)) eqn:E; [|now apply IH].
  apply String.eqb_eq in E. exfalso. apply Hx. rewrite E.
  apply list_elem_of_fmap. now exists c.
Qed.

(** Selecting a delivered comment shows its drawing: after the click the
    active comment carries the clicked id and, when the delivered ids are
    pairwise distinct, is the clicked comment itself with its strokes; with
    nothing selected there is no active comment and no overlay. *)
Theorem activeComment_after_select (comments : list Comment) (c : Comment)
  (s : Review.State) (d : Store.DB) :
  c ∈ comments ->
  let s' := fst (fst (Review.step (s, d) (Review.SelectComment c))) in
  Review.currentTime s' = timestamp c /\
  (exists c', activeComment comments (Review.activeCommentId s') = Some c' /\
              id c' = id c /\ c' ∈ comments) /\
  (NoDup (map id comments) ->
   activeComment comments (Review.activeCommentId s') = Some c /\
   activeCommentDrawing comments (Review.activeCommentId s') = drawingData c) /\
  activeCommentDrawing comments None = None.
Proof.
  intros Hin s'. subst s'. cbn [Review.step fst Review.activeCommentId Review.currentTime
    Review.setActiveCommentId Review.setCurrentTime activeComment].
  split; [reflexivity|]. split; [|split; [|reflexivity]].
  - destruct (List.find (fun x => String.eqb (id x) (id c)) comments) as [c'|] eqn:E.
    + apply find_some in E as [Hc' Heq]. apply String.eqb_eq in Heq.
      exists c'. repeat split; [exact Heq|now apply list_elem_of_In].
    + exfalso. apply list_elem_of_In in Hin.
      pose proof (find_none _ _ E c Hin) as Hn. cbn in Hn.
      now rewrite String.eqb_refl in Hn.
  - intros Hnd. unfold activeCommentDrawing. cbn [activeComment].
    now rewrite (find_by_id_unique comments c Hin Hnd).
Qed.

Lemma activeComment_after_select_witness :
  let cs := Store.loadComments "proj_1" (Store.MOCK_DB 0) in
  let s := Review.initialState (Store.seedProject 0) false in
  activeCommentDrawing cs
    (Review.activeCommentId
       (fst (fst (Review.step (s, Store.MOCK_DB 0) (Review.SelectComment (Store.seedComment 0))))))
  = drawingData (Store.seedComment 0).
Proof.
  intros cs s.
  refine (proj2 (proj1 (proj2 (proj2
    (activeComment_after_select cs (Store.seedComment 0) s (Store.MOCK_DB 0) _))) _)).
  - vm_compute. left.
  - vm_compute. repeat constructor. intros H. inversion H.
Defined.

End OverlayFacts.

(** * Polling, sign-in and the summary request *)

Section PollingFacts.
Import Store Sync.

(** A comments subscriber gets the current sequence at once and, after a
    comment was posted to its project, the grown sequence at its next timer
    task; between the two nothing is delivered to it. *)
Theorem subscriber_sees_initial_then_update (projectId : string) (cb : nat)
  (w : World) (draft : CommentDraft) (now1 now2 : Z) :
  let w1 := fst (subscribeToComments projectId cb w) in
  let handle := snd (subscribeToComments projectId cb w) in
  let d' := dbAfter (db w) (addComment projectId draft now1 now2 (db w)) in
  log w1 = log w ++ [(cb, CommentsPayload (loadComments projectId (db w)))] /\
  log (run w1 [AddComment projectId draft now1 now2]) = log w1 /\
  log (run w1 [AddComment projectId draft now1 now2; Tick handle])
  = log w1 ++ [(cb, CommentsPayload (loadComments projectId d'))] /\
  newComment draft now1 now2 ∈ loadComments projectId d'.
Proof.
  cbv zeta. split; [reflexivity|]. split; [reflexivity|]. split.
  - cbn [run foldl step subscribeToComments setInterval fst snd]. unfold tick.
    cbn [timers withDb runHandler nextTimer]. rewrite lookup_insert_eq. reflexivity.
  - cbn [addComment dbAfter]. unfold loadComments. rewrite commentsOf_insert.
    rewrite sort_perm. apply elem_of_app. right. left.
Qed.

Lemma step_polling_db (w : World) ev :
  Facts.isPolling ev = true -> db (step w ev) = db w.
Proof.
  destruct ev; try discriminate; intros _; cbn [step]; try reflexivity.
  unfold tick. now destruct (timers w !! handle).
Qed.

Lemma step_mutation_quiet (w : World) ev :
  Facts.isPolling ev = false ->
  log (step w ev) = log w /\ timers (step w ev) = timers w /\
  nextTimer (step w ev) = nextTimer w.
Proof.
  destruct ev; try discriminate; intros _; cbn [step]; now repeat split.
Qed.

(** The store and the subscriptions are decoupled: timer tasks, subscribe
    and unsubscribe calls never change the store, and store mutations
    neither invoke a callback nor touch a timer, so a change reaches a
    subscriber only through its next timer task. *)
Theorem polling_and_mutation_decoupled (w : World) (evs : list Event) :
  (Forall (fun ev => Facts.isPolling ev = true) evs -> db (run w evs) = db w) /\
  (Forall (fun ev => Facts.isPolling ev = false) evs ->
   log (run w evs) = log w /\ timers (run w evs) = timers w).
Proof.
  split; intros Hall; revert w; induction Hall as [|ev evs Hev Hall IH]; intros w;
    try (now repeat split); cbn [run foldl]; fold (run (step w ev) evs).
  - now rewrite IH, step_polling_db.
  - destruct (step_mutation_quiet w ev Hev) as (Hl & Ht & _).
    destruct (IH (step w ev)) as [IHl IHt]. now rewrite IHl, IHt.
Qed.

Lemma polling_and_mutation_decoupled_witness :
  let w := fst (subscribeToComments "proj_1" 1 (initial (MOCK_DB 0))) in
  log (run w [AddComment "proj_1" (mkDraft "guest" "Guest Client" "louder" 12 false None) 7 7;
              ResolveComment "proj_1" "c1" true])
  = log w.
Proof.
  intros w.
  refine (proj1 (proj2 (polling_and_mutation_decoupled w _) _)).
  repeat constructor.
Defined.

End PollingFacts.

Section AuthFacts.
Import Auth.

(** Anonymous sessions persist: whatever the storage held, a sign-in
    leaves a non-empty id under [cf_uid], touches no other key, and every
    later sign-in, also after a sign-out and with another random draw,
    returns the same user and leaves the storage as it is. *)
Theorem signIn_persists (rnd1 rnd2 : string) (localStorage : gmap string string) :
  let u1 := fst (signInAnonymously rnd1 localStorage) in
  let ls1 := snd (signInAnonymously rnd1 localStorage) in
  uid u1 <> ""%string /\
  ls1 !! "cf_uid"%string = Some (uid u1) /\
  (forall k, k <> "cf_uid"%string -> ls1 !! k = localStorage !! k) /\
  signInAnonymously rnd2 (signOut ls1) = (u1, ls1).
Proof.
  cbv zeta. unfold signInAnonymously, signOut. cbn [fst snd uid].
  destruct (localStorage !! "cf_uid"%string) as [[|a rest]|] eqn:E; cbn [orElse falsy].
  - split; [discriminate|]. split; [apply lookup_insert_eq|]. split.
    + intros k Hk. now rewrite lookup_insert_ne by congruence.
    + now rewrite lookup_insert_eq.
  - split; [discriminate|]. split; [exact E|]. split; [reflexivity|]. now rewrite E.
  - split; [discriminate|]. split; [apply lookup_insert_eq|]. split.
    + intros k Hk. now rewrite lookup_insert_ne by congruence.
    + now rewrite lookup_insert_eq.
Qed.

End AuthFacts.

Section RequestFacts.
Import AI.

(** A summary makes a single attempt: at most one request goes out, and
    only with a key and some unresolved comment; the request names the
    title and carries exactly the unresolved comments, in list order; when
    the service call throws, the fallback text is returned instead of an
    error. *)
Theorem summarizeFeedback_single_attempt (key : string)
  (generateContent : Request -> option string) (cs : list Comment) (title : string) :
  let unresolved := List.filter (fun c => negb (resolved c)) cs in
  let req := mkRequest "gemini-2.5-flash" title (map feedbackOf unresolved) in
  (length (snd (summarizeFeedback key generateContent cs title)) <= 1)%nat /\
  (forall r, r ∈ snd (summarizeFeedback key generateContent cs title) ->
     r = req /\ key <> ""%string /\ unresolved <> []) /\
  (key <> ""%string -> unresolved <> [] ->
   snd (summarizeFeedback key generateContent cs title) = [req] /\
   fst (summarizeFeedback key generateContent cs title)
   = default "Could not generate summary. Check API Key."%string (generateContent req)).
Proof.
  cbv zeta. unfold summarizeFeedback.
  destruct key as [|a key]; cbn [Review.truthy negb].
  { split; [simpl; lia|]. split; [intros r Hr; inversion Hr|congruence]. }
  destruct (List.filter (fun c => negb (resolved c)) cs) as [|c0 l] eqn:E;
    cbn [length Nat.eqb].
  { split; [simpl; lia|]. split; [intros r Hr; inversion Hr|congruence]. }
  destruct (generateContent _) as [resp|] eqn:G; cbn [snd fst length].
  - split; [lia|]. split.
    + intros r Hr. apply list_elem_of_singleton in Hr. subst r. now repeat split.
    + intros _ _. now split.
  - split; [lia|]. split.
    + intros r Hr. apply list_elem_of_singleton in Hr. subst r. now repeat split.
    + intros _ _. now split.
Qed.

Lemma summarizeFeedback_single_attempt_witness :
  summarizeFeedback "k3y" (fun _ => None) [Store.seedComment 0] "Demo"
  = ("Could not generate summary. Check API Key."%string,
     [mkRequest "gemini-2.5-flash" "Demo" [feedbackOf (Store.seedComment 0)]]).
Proof.
  pose proof (summarizeFeedback_single_attempt "k3y" (fun _ => None)
                [Store.seedComment 0] "Demo") as (_ & _ & H).
  destruct H as [H1 H2]; [discriminate|discriminate|].
  destruct (summarizeFeedback "k3y" (fun _ => None) [Store.seedComment 0] "Demo") as [a b].
  cbn [fst snd] in H1, H2. now rewrite H1, H2.
Defined.

End RequestFacts.

(** * Runs: drawing sessions and the store under a steady clock *)

Section SessionFacts.
Import Geometry Whiteboard Batched.

(** A drawing session accumulates: any number of gestures made one after
    the other in drawing mode, each pointer event followed by a re-render,
    hand over one stroke each, in order, and leave them appended to the
    session's strokes with no stroke in progress. *)
Theorem gestures_accumulate
  (gs : list ((DOMRect * MouseEvent) * list (DOMRect * MouseEvent) * Step))
  (l : Live) :
  isDrawing l = true ->
  Forall (fun g => endsGesture (snd g)) gs ->
  gs <> [] ->
  run l (Facts.gestures gs)
  = (rerender (queuePoints []
       (queueDrawings (queuedDrawings l ++ Facts.strokesOf gs) l)),
     Facts.strokesOf gs).
Proof.
  intros Hdraw Hall. revert l Hdraw.
  induction Hall as [|[[down moves] fin] gs Hfin Hall IH]; intros l Hdraw Hne; [congruence|].
  unfold Facts.gestures, Facts.strokesOf. cbn [map concat fst snd].
  rewrite batched_run_app, (run_rendered_gesture l down moves fin Hdraw Hfin).
  destruct gs as [|g gs].
  - cbn [map concat run]. now rewrite app_nil_r.
  - fold (Facts.gestures (g :: gs)). rewrite IH; [|exact Hdraw|discriminate].
    fold (Facts.strokesOf (g :: gs)).
    cbn [queuedDrawings rerender queuePoints queueDrawings].
    rewrite <- app_assoc. reflexivity.
Qed.

Lemma gestures_accumulate_witness :
  let r := mkRect 0 0 200 100 in
  let l := ofState (Review.clickDraw (Review.initialState (Store.seedProject 0) false)) in
  let gs := [((r, mkMouse 40 40), [(r, mkMouse 60 40)], Up);
             ((r, mkMouse 10 10), [(r, mkMouse 20 20); (r, mkMouse 30 10)], Leave)] in
  map (fun st => length (points st)) (snd (run l (Facts.gestures gs))) = [2; 3]%nat /\
  map (fun st => length (points st)) (currentDrawings (fst (run l (Facts.gestures gs))))
  = [2; 3]%nat.
Proof.
  intros r l gs.
  rewrite (gestures_accumulate gs l).
  - split; reflexivity.
  - reflexivity.
  - constructor; [left; reflexivity|]. constructor; [right; reflexivity|]. constructor.
  - discriminate.
Defined.

End SessionFacts.

Section ClockFacts.
Import Store Sync Facts.

Lemma steady_weaken hi hi' cs : hi <= hi' -> steady hi cs -> steady hi' cs.
Proof.
  intros Hle [Hs Hb]. split; [exact Hs|].
  eapply Forall_impl; [exact Hb|]. intros z Hz. cbn in Hz. lia.
Qed.

Lemma steadyDb_weaken hi hi' d : hi <= hi' -> steadyDb hi d -> steadyDb hi' d.
Proof. intros Hle H pid cs Hcs. eapply steady_weaken; [exact Hle|]. eapply H, Hcs. Qed.

Lemma StronglySorted_snoc (l : list Z) (z : Z) :
  StronglySorted Z.le l -> Forall (fun x => x <= z) l -> StronglySorted Z.le (l ++ [z]).
Proof.
  induction 1 as [|x l Hs IH Hall]; intros Hb; simpl.
  - repeat constructor.
  - inversion Hb as [|? ? Hx Hb']; subst. constructor; [now apply IH|].
    apply Forall_app. split; [exact Hall|]. now constructor.
Qed.

Lemma steady_snoc hi cs c :
  steady hi cs -> hi <= createdAt c -> steady (createdAt c) (cs ++ [c]).
Proof.
  intros [Hs Hb] Hle. unfold steady. rewrite map_app. cbn [map]. split.
  - apply StronglySorted_snoc; [exact Hs|].
    eapply Forall_impl; [exact Hb|]. intros z Hz. cbn in Hz. lia.
  - apply Forall_app. split.
    + eapply Forall_impl; [exact Hb|]. intros z Hz. cbn in Hz. lia.
    + constructor; [lia|constructor].
Qed.

Lemma map_createdAt_alter r i (cs : list Comment) :
  map createdAt (alter (setResolvedField r) i cs) = map createdAt cs.
Proof.
  revert i. induction cs as [|c cs IH]; intros [|i]; simpl; try reflexivity.
  f_equal. apply IH.
Qed.

Lemma step_steady (w : World) ev lo :
  steadyDb lo (db w) -> Facts.clockFrom lo [ev] ->
  exists hi, lo <= hi /\ steadyDb hi (db (step w ev)) /\
             forall rest, Facts.clockFrom lo (ev :: rest) -> Facts.clockFrom hi rest.
Proof.
  intros Hst Hclk. destruct ev.
  1-4: exists lo; split; [lia|]; split; [|intros rest H; exact H];
       rewrite step_polling_db by reflexivity; exact Hst.
  - cbn in Hclk. destruct Hclk as [Hle _]. exists now2. split; [exact Hle|]. split.
    + cbn [step withDb db addComment dbAfter]. intros pid cs Hcs. cbn [comments] in Hcs.
      apply lookup_insert_Some in Hcs as [[<- <-]|[Hne Hcs]].
      * change now2 with (createdAt (newComment draft now1 now2)).
        apply (steady_snoc lo); [|exact Hle].
        unfold commentsOf. destruct (comments (db w) !! projectId) as [cs|] eqn:E.
        -- eapply Hst, E.
        -- split; constructor.
      * eapply steady_weaken; [exact Hle|]. eapply Hst, Hcs.
    + intros rest [_ H]. exact H.
  - exists lo. split; [lia|]. split; [|intros rest H; exact H].
    cbn [step]. unfold resolveComment.
    destruct (comments (db w) !! projectId) as [cs|] eqn:E; [|exact Hst].
    destruct (findIndex commentId cs) as [idx|]; [|exact Hst].
    cbn [withDb db]. intros pid cs' Hcs'. cbn [comments] in Hcs'.
    apply lookup_insert_Some in Hcs' as [[<- <-]|[Hne Hcs']].
    + unfold steady. rewrite map_createdAt_alter. eapply Hst, E.
    + eapply Hst, Hcs'.
  - exists lo. split; [lia|]. split; [|intros rest H; exact H].
    cbn [step withDb db createProject dbAfter]. intros pid cs Hcs. cbn [comments] in Hcs.
    apply lookup_insert_Some in Hcs as [[_ <-]|[Hne Hcs]].
    + split; constructor.
    + eapply Hst, Hcs.
Qed.

Lemma run_steady evs : forall (w : World) lo,
  steadyDb lo (db w) -> Facts.clockFrom lo evs ->
  exists hi, steadyDb hi (db (run w evs)).
Proof.
  induction evs as [|ev evs IH]; intros w lo Hst Hclk; [now exists lo|].
  assert (H1 : Facts.clockFrom lo [ev]).
  { destruct ev; cbn in *; try exact I. split; [apply Hclk|exact I]. }
  destruct (step_steady w ev lo Hst H1) as (hi & _ & Hst' & Hrest).
  cbn [run foldl]. fold (run (step w ev) evs). eapply IH; [exact Hst'|]. now apply Hrest.
Qed.

Lemma StronglySorted_createdAt (cs : list Comment) :
  StronglySorted Z.le (map createdAt cs) ->
  StronglySorted (fun a b => createdAt a <= createdAt b) cs.
Proof.
  induction cs as [|c cs IH]; intros H; [constructor|].
  cbn [map] in H. inversion H as [|? ? Hs Hall]; subst.
  constructor; [now apply IH|].
  apply Forall_forall. intros x Hx.
  apply (proj1 (Forall_forall _ _) Hall). apply list_elem_of_fmap. now exists x.
Qed.

(** Under a clock that never steps back, the order of delivery is the
    full one: starting from the seeded store, after any run of posts,
    resolves, project creations and subscription traffic whose [createdAt]
    readings are non-decreasing from the seed's, every project's delivered
    sequence is sorted by timestamp with ties by [createdAt] ascending. *)
Theorem steady_clock_orders_ties (t0 : Z) (evs : list Event) (projectId : string) :
  Facts.clockFrom (t0 - 50000) evs ->
  StronglySorted tsCreatedLe
    (loadComments projectId (db (run (initial (MOCK_DB t0)) evs))).
Proof.
  intros Hclk.
  assert (Hseed : steadyDb (t0 - 50000) (db (initial (MOCK_DB t0)))).
  { intros pid cs Hcs. cbn in Hcs. apply lookup_singleton_Some in Hcs as [_ <-].
    split; cbn; repeat constructor. lia. }
  destruct (run_steady evs _ _ Hseed Hclk) as [hi Hst].
  unfold loadComments. apply sort_tsCreated, StronglySorted_createdAt.
  unfold commentsOf.
  destruct (comments (db (run (initial (MOCK_DB t0)) evs)) !! projectId) as [cs|] eqn:E.
  - apply (Hst _ _ E).
  - constructor.
Qed.

Lemma steady_clock_orders_ties_witness :
  StronglySorted tsCreatedLe
    (loadComments "proj_1"
       (db (run (initial (MOCK_DB 1000000))
              [AddComment "proj_1" (mkDraft "guest" "Guest Client" "b" 5.2 false None) 1000200 1000200;
               ResolveComment "proj_1" "c1" true;
               AddComment "proj_1" (mkDraft "guest" "Guest Client" "a" 5.2 false None) 1000200 1000200]))).
Proof.
  apply (steady_clock_orders_ties 1000000). cbn. lia.
Defined.

End ClockFacts.
